(** * AequilibraE [Network]: OSM tiling, GMNS import and per-mode graphs

    A shallow embedding of [aequilibrae/project/network/network.py]:
    [Network.create_from_osm], [Network.create_from_gmns],
    [Network.build_graphs], [Network.skimmable_fields] and
    [Network.set_time_field].

    Conventions.
    - Python floats are idealised as exact rationals ([Q]); equality of
      coordinates is numeric equality ([==]), never rounding.
    - Python exceptions are values of [exn]; code that can raise returns
      a [result].
    - Collaborators whose code is not part of this file ([placegetter],
      [haversine], the database, pandas' string matching, the graph
      objects, the modes of the model) are arguments of the functions
      that call them. *)

From Stdlib Require Import ZArith QArith Qround Qminmax Lia Lqa List String Ascii.
From stdpp Require Import gmap strings list sorting.

(** ** Exceptions and results *)

Inductive exn : Type :=
| FileExistsError (msg : string)
| ValueError (msg : string)
| KeyError (key : string)
| AttributeError (name : string)
| TypeError
| ZeroDivisionError.

Inductive result (A : Type) : Type :=
| Ok (a : A)
| Raise (e : exn).
Arguments Ok {A} a.
Arguments Raise {A} e.

Definition bind {A B} (r : result A) (k : A -> result B) : result B :=
  match r with
  | Ok a => k a
  | Raise e => Raise e
  end.

Notation "'do' x <- r ; k" := (bind r (fun x => k))
  (at level 10, x name, r at level 100, k at level 200).

(** * [create_from_osm] *)

Module Osm.
Local Open Scope Q_scope.

(** A rectangle [[west, south, east, north]] (also [[xmin, ymin, xmax, ymax]]). *)
Record box : Type := Box { xmin : Q; ymin : Q; xmax : Q; ymax : Q }.

(** Numeric equality of two rectangles. *)
Definition box_eq (a b : box) : Prop :=
  xmin a == xmin b /\ ymin a == ymin b /\ xmax a == xmax b /\ ymax a == ymax b.

(** [x, y] lies in the closed rectangle [b]. *)
Definition inside (x y : Q) (b : box) : Prop :=
  xmin b <= x /\ x <= xmax b /\ ymin b <= y /\ y <= ymax b.

(** [a < b] on numbers. *)
Definition Qlt_bool (a b : Q) : bool := negb (Qle_bool b a).

(** The bounds test of line 173. *)
Definition out_of_bounds (west south east north : Q) : bool :=
  Qlt_bool (Qmin east west) (-180)
  || Qlt_bool 180 (Qmax east west)
  || Qlt_bool (Qmin north south) (-90)
  || Qlt_bool 90 (Qmax north south).

Definition valid (b : box) : Prop :=
  out_of_bounds (xmin b) (ymin b) (xmax b) (ymax b) = false.

(** [a / b] on Python numbers raises on a zero divisor. *)
Definition py_div (a b : Q) : result Q :=
  if Qeq_bool b 0 then Raise ZeroDivisionError else Ok (a / b).

(** [math.sqrt] raises on a negative argument; [math.ceil (math.sqrt n)]
    of a non-negative integer is the least [s] with [n <= s * s]. *)
Definition ceil_sqrt (n : Z) : result Z :=
  if (n <? 0)%Z then Raise (ValueError "math domain error") else Ok (Z.sqrt_up n).

(** [range(n)] as numbers. *)
Definition range (n : Z) : list Q :=
  map (fun k => inject_Z (Z.of_nat k)) (seq 0 (Z.to_nat n)).

(** Lines 203-212: the grid of [horizontal * vertical] clamped cells. *)
Definition grid (west south east north : Q) (horizontal vertical : Z) (dx dy : Q)
  : list box :=
  flat_map (fun i =>
    let xmin := Qmax (-180) (west + i * dx) in
    let xmax := Qmin 180 (west + (i + 1) * dx) in
    map (fun j =>
      let ymin := Qmax (-90) (south + j * dy) in
      let ymax := Qmin 90 (south + (j + 1) * dy) in
      Box xmin ymin xmax ymax) (range vertical)) (range horizontal).

(** Lines 196-212: the tiling step, from the bounding box, its
    approximated area and [max_query_area_size]. *)
Definition polygons (bbox : box) (area max_query_area_size : Q) : result (list box) :=
  let west := xmin bbox in
  let south := ymin bbox in
  let east := xmax bbox in
  let north := ymax bbox in
  if Qlt_bool area max_query_area_size then Ok [bbox]
  else
    do q <- py_div area max_query_area_size ;
    let parts := Qceiling q in
    do horizontal <- ceil_sqrt parts ;
    do r <- py_div (inject_Z parts) (inject_Z horizontal) ;
    let vertical := Qceiling r in
    do dx <- py_div (east - west) (inject_Z horizontal) ;
    do dy <- py_div (north - south) (inject_Z vertical) ;
    Ok (grid west south east north horizontal vertical dx dy).

(** The [modes] argument: a list or tuple of strings, one string, or
    anything else. *)
Inductive modes_arg : Type :=
| ModesList (l : list string)
| ModesStr (s : string)
| ModesOther.

(** What the call does besides returning. *)
Inductive event : Type :=
| AlterTable (table : string)
| Commit
| Warn (msg : string)
| LogWarning (msg : string)
| LogInfo (msg : string)
| Download (polygons : list box) (modes : list string)
| Build.

Record run : Type := Run { events : list event; outcome : result unit }.

Definition not_found_msg (place_name : string) : string :=
  "We could not find a reference for place name " ++ place_name.

(** [west, south, east, north = bbox]: unpacking [None] raises. *)
Definition unpack (bbox : option box) : result box :=
  match bbox with
  | None => Raise TypeError
  | Some b => Ok b
  end.

Section CreateFromOsm.
(** [placegetter]: a place name to an optional bounding box and a report. *)
Variable placegetter : string -> option box * list string.
(** [haversine lon1 lat1 lon2 lat2]: great-circle distance. *)
Variable haversine : Q -> Q -> Q -> Q -> Q.
(** [i] is one of the report lines that contain "PLACE FOUND". *)
Variable place_found : string -> bool.
(** [Parameters().parameters["osm"]["max_query_area_size"]]. *)
Variable max_query_area_size : Q.

(** Lines 172-186: the bounding box, or the way the call ends. The
    comparisons of line 173 are made from left to right and the first
    that holds ends the test; a coordinate left at [None] raises when
    the comparison that names it is reached. *)
Definition resolve_bbox (west south east north : option Q) (place_name : option string)
  : list event * result (option box) :=
  match place_name with
  | None =>
      match east, west with
      | Some e, Some w =>
          if Qlt_bool (Qmin e w) (-180) || Qlt_bool 180 (Qmax e w)
          then ([], Raise (ValueError "Coordinates out of bounds"))
          else
            match north, south with
            | Some n, Some s =>
                if Qlt_bool (Qmin n s) (-90) || Qlt_bool 90 (Qmax n s)
                then ([], Raise (ValueError "Coordinates out of bounds"))
                else ([], Ok (Some (Box w s e n)))
            | _, _ => ([], Raise TypeError)
            end
      | _, _ => ([], Raise TypeError)
      end
  | Some name =>
      let '(bbox, report) := placegetter name in
      match unpack bbox with
      | Raise e => ([], Raise e)
      | Ok (Box west south east north) =>
          match bbox with
          | None =>
              let msg := not_found_msg name in
              ([Warn msg; LogWarning msg], Ok None)
          | Some _ =>
              (map LogInfo (List.filter place_found report),
               Ok (Some (Box west south east north)))
          end
      end
  end.

Definition create_from_osm (count_links : Z)
    (west south east north : option Q) (place_name : option string)
    (modes : modes_arg) : run :=
  if (0 <? count_links)%Z then
    Run [] (Raise (FileExistsError
      "You can only import an OSM network into a brand new model file"))
  else
    let ev0 := [AlterTable "links"; AlterTable "nodes"; Commit] in
    match
      match modes with
      | ModesList l => Ok l
      | ModesStr s => Ok [s]
      | ModesOther =>
          Raise (ValueError "'modes' needs to be string or list/tuple of string")
      end
    with
    | Raise e => Run ev0 (Raise e)
    | Ok modes =>
        match resolve_bbox west south east north place_name with
        | (ev1, Raise e) => Run (ev0 ++ ev1) (Raise e)
        | (ev1, Ok None) => Run (ev0 ++ ev1) (Ok tt)
        | (ev1, Ok (Some bbox)) =>
            let west := xmin bbox in
            let south := ymin bbox in
            let east := xmax bbox in
            let north := ymax bbox in
            let height := haversine ((east + west) / 2) south ((east + west) / 2) north in
            let width := haversine east ((north + south) / 2) west ((north + south) / 2) in
            let area := height * width in
            match polygons bbox area max_query_area_size with
            | Raise e => Run (ev0 ++ ev1) (Raise e)
            | Ok polygons =>
                Run (ev0 ++ ev1 ++
                     [LogInfo "Downloading data"; Download polygons modes;
                      LogInfo "Building Network"; Build;
                      LogInfo "Network built successfully"]) (Ok tt)
            end
        end
    end.
End CreateFromOsm.

(** [x, y] lies in the open rectangle [b]. *)
Definition interior (x y : Q) (b : box) : Prop :=
  xmin b < x /\ x < xmax b /\ ymin b < y /\ y < ymax b.

(** The downloads a call started, in their order. *)
Definition downloads (evs : list event) : list (list box * list string) :=
  flat_map (fun ev => match ev with
                      | Download polygons modes => [(polygons, modes)]
                      | _ => []
                      end) evs.

(** ** Facts about the helpers *)

Lemma Qlt_bool_iff a b : Qlt_bool a b = true <-> a < b.
Proof.
  unfold Qlt_bool. rewrite negb_true_iff. split.
  - intros H. apply Qnot_le_lt. intros Hle.
    apply Qle_bool_iff in Hle. congruence.
  - intros H. destruct (Qle_bool b a) eqn:E; [|reflexivity].
    apply Qle_bool_iff in E. lra.
Qed.

Lemma Qlt_bool_false a b : Qlt_bool a b = false <-> b <= a.
Proof.
  unfold Qlt_bool. rewrite negb_false_iff. apply Qle_bool_iff.
Qed.

Lemma resolve_bbox_coordinates placegetter place_found w s e n :
  resolve_bbox placegetter place_found (Some w) (Some s) (Some e) (Some n) None =
  if out_of_bounds w s e n
  then ([], Raise (ValueError "Coordinates out of bounds"))
  else ([], Ok (Some (Box w s e n))).
Proof.
  unfold resolve_bbox, out_of_bounds.
  destruct (Qlt_bool (Qmin e w) (-180)), (Qlt_bool 180 (Qmax e w)),
    (Qlt_bool (Qmin n s) (-90)), (Qlt_bool 90 (Qmax n s)); reflexivity.
Qed.

Lemma py_div_ok a b : ~ b == 0 -> py_div a b = Ok (a / b).
Proof.
  intros H. unfold py_div. destruct (Qeq_bool b 0) eqn:E; [|reflexivity].
  apply Qeq_bool_iff in E. contradiction.
Qed.

Lemma py_div_zero a b : b == 0 -> py_div a b = Raise ZeroDivisionError.
Proof.
  intros H. unfold py_div. apply Qeq_bool_iff in H. now rewrite H.
Qed.

Lemma valid_bounds b :
  valid b <->
  (-180 <= xmin b /\ xmin b <= 180) /\ (-180 <= xmax b /\ xmax b <= 180) /\
  (-90 <= ymin b /\ ymin b <= 90) /\ (-90 <= ymax b /\ ymax b <= 90).
Proof.
  unfold valid, out_of_bounds.
  rewrite !orb_false_iff, !Qlt_bool_false, !Q.min_glb_iff, !Q.max_lub_iff.
  tauto.
Qed.

Lemma inject_Z_succ (k : nat) :
  inject_Z (Z.of_nat (S k)) == inject_Z (Z.of_nat k) + 1.
Proof.
  rewrite Nat2Z.inj_succ, <- Z.add_1_r, inject_Z_plus. reflexivity.
Qed.

Lemma In_range q n :
  In q (range n) <-> exists k, (k < Z.to_nat n)%nat /\ q = inject_Z (Z.of_nat k).
Proof.
  unfold range. rewrite in_map_iff. split.
  - intros (k & <- & Hk). apply in_seq in Hk. exists k. split; [lia | reflexivity].
  - intros (k & Hk & ->). exists k. split; [reflexivity | apply in_seq; lia].
Qed.

Lemma length_range n : length (range n) = Z.to_nat n.
Proof. unfold range. now rewrite length_map, length_seq. Qed.

(** One axis: [n] consecutive cells of width [d] starting at [lo] leave
    no point of [[lo, lo + n * d]] out. *)
Lemma cover_axis lo d x (n : nat) :
  (0 < n)%nat -> lo <= x -> x <= lo + inject_Z (Z.of_nat n) * d ->
  exists i, (i < n)%nat /\
    lo + inject_Z (Z.of_nat i) * d <= x /\
    x <= lo + (inject_Z (Z.of_nat i) + 1) * d.
Proof.
  induction n as [|k IH]; intros Hn Hlo Hhi; [lia|].
  destruct (Qlt_le_dec x (lo + inject_Z (Z.of_nat k) * d)) as [Hlt|Hge].
  - destruct k as [|k'].
    + exfalso. change (inject_Z (Z.of_nat 0)) with 0 in Hlt. lra.
    + destruct IH as (i & Hi & H1 & H2); [lia | assumption | lra |].
      exists i. repeat split; [lia | assumption | assumption].
  - exists k. rewrite inject_Z_succ in Hhi. repeat split; [lia | assumption | assumption].
Qed.

Lemma length_grid w s e n h v dx dy :
  length (grid w s e n h v dx dy) = (Z.to_nat h * Z.to_nat v)%nat.
Proof.
  unfold grid. rewrite (flat_map_constant_length (c := Z.to_nat v)).
  - now rewrite length_range.
  - intros x _. now rewrite length_map, length_range.
Qed.

Lemma In_grid t w s e n h v dx dy :
  In t (grid w s e n h v dx dy) <->
  exists i j, (i < Z.to_nat h)%nat /\ (j < Z.to_nat v)%nat /\
    t = Box (Qmax (-180) (w + inject_Z (Z.of_nat i) * dx))
            (Qmax (-90) (s + inject_Z (Z.of_nat j) * dy))
            (Qmin 180 (w + (inject_Z (Z.of_nat i) + 1) * dx))
            (Qmin 90 (s + (inject_Z (Z.of_nat j) + 1) * dy)).
Proof.
  unfold grid. rewrite in_flat_map. split.
  - intros (qi & Hi & Ht). apply in_map_iff in Ht. destruct Ht as (qj & <- & Hj).
    apply In_range in Hi. apply In_range in Hj.
    destruct Hi as (i & Hi & ->). destruct Hj as (j & Hj & ->).
    exists i, j. repeat split; assumption.
  - intros (i & j & Hi & Hj & ->). exists (inject_Z (Z.of_nat i)). split.
    + apply In_range. exists i. split; [assumption | reflexivity].
    + apply in_map_iff. exists (inject_Z (Z.of_nat j)). split; [reflexivity|].
      apply In_range. exists j. split; [assumption | reflexivity].
Qed.

(** The cells of a grid that spans a valid rectangle cover it. *)
Lemma grid_covers b h v x y :
  valid b -> (0 < h)%Z -> (0 < v)%Z -> inside x y b ->
  exists t,
    In t (grid (xmin b) (ymin b) (xmax b) (ymax b) h v
            ((xmax b - xmin b) / inject_Z h) ((ymax b - ymin b) / inject_Z v)) /\
    inside x y t.
Proof.
  intros Hv Hh Hvv (Hx1 & Hx2 & Hy1 & Hy2).
  apply valid_bounds in Hv. destruct Hv as ((?&?)&(?&?)&(?&?)&(?&?)).
  assert (Hh' : ~ inject_Z h == 0).
  { intros E. apply (inject_Z_injective h 0) in E. lia. }
  assert (Hv' : ~ inject_Z v == 0).
  { intros E. apply (inject_Z_injective v 0) in E. lia. }
  destruct (cover_axis (xmin b) ((xmax b - xmin b) / inject_Z h) x (Z.to_nat h))
    as (i & Hi & Hi1 & Hi2); [lia | assumption | |].
  { rewrite Z2Nat.id by lia.
    assert (E : xmin b + inject_Z h * ((xmax b - xmin b) / inject_Z h) == xmax b)
      by (field; assumption).
    rewrite E. assumption. }
  destruct (cover_axis (ymin b) ((ymax b - ymin b) / inject_Z v) y (Z.to_nat v))
    as (j & Hj & Hj1 & Hj2); [lia | assumption | |].
  { rewrite Z2Nat.id by lia.
    assert (E : ymin b + inject_Z v * ((ymax b - ymin b) / inject_Z v) == ymax b)
      by (field; assumption).
    rewrite E. assumption. }
  eexists. split.
  - apply In_grid. exists i, j. repeat split; [assumption | assumption].
  - unfold inside; simpl. repeat split.
    + apply Q.max_lub_iff. split; [lra | assumption].
    + apply Q.min_glb_iff. split; [lra | assumption].
    + apply Q.max_lub_iff. split; [lra | assumption].
    + apply Q.min_glb_iff. split; [lra | assumption].
Qed.
Lemma nth_error_range n i :
  (i < Z.to_nat n)%nat -> nth_error (range n) i = Some (inject_Z (Z.of_nat i)).
Proof.
  intros Hi. unfold range.
  rewrite nth_error_map, (nth_error_nth' _ 0%nat) by (rewrite length_seq; lia).
  rewrite seq_nth by lia. reflexivity.
Qed.

Lemma nth_error_flat_map_const {A B} (f : A -> list B) (c : nat) l i j a :
  (forall x, length (f x) = c) -> nth_error l i = Some a -> (j < c)%nat ->
  nth_error (flat_map f l) (i * c + j) = nth_error (f a) j.
Proof.
  intros Hc. revert i. induction l as [|x l IH]; intros i Hi Hj.
  - destruct i; discriminate.
  - destruct i as [|i]; simpl in *.
    + injection Hi as ->. apply nth_error_app1. now rewrite Hc.
    + rewrite nth_error_app2 by (rewrite Hc; lia).
      rewrite Hc. replace (c + i * c + j - c)%nat with (i * c + j)%nat by lia.
      now apply IH.
Qed.

(** Cell [(i, j)] of the grid sits at position [i * vertical + j]. *)
Lemma nth_error_grid w s e n h v dx dy i j :
  (i < Z.to_nat h)%nat -> (j < Z.to_nat v)%nat ->
  nth_error (grid w s e n h v dx dy) (i * Z.to_nat v + j) =
  Some (Box (Qmax (-180) (w + inject_Z (Z.of_nat i) * dx))
            (Qmax (-90) (s + inject_Z (Z.of_nat j) * dy))
            (Qmin 180 (w + (inject_Z (Z.of_nat i) + 1) * dx))
            (Qmin 90 (s + (inject_Z (Z.of_nat j) + 1) * dy))).
Proof.
  intros Hi Hj. unfold grid.
  rewrite (nth_error_flat_map_const _ (Z.to_nat v) _ i j (inject_Z (Z.of_nat i))).
  - rewrite nth_error_map, nth_error_range by assumption. reflexivity.
  - intros x. now rewrite length_map, length_range.
  - now apply nth_error_range.
  - assumption.
Qed.

(** The split path taken with [0 < max_query_area_size <= area]. *)
Lemma polygons_split_eq b area maxq :
  0 < maxq -> maxq <= area ->
  let parts := Qceiling (area / maxq) in
  let horizontal := Z.sqrt_up parts in
  let vertical := Qceiling (inject_Z parts / inject_Z horizontal) in
  (1 <= parts)%Z /\ (1 <= horizontal)%Z /\ (1 <= vertical)%Z /\
  (parts <= horizontal * vertical)%Z /\
  polygons b area maxq =
    Ok (grid (xmin b) (ymin b) (xmax b) (ymax b) horizontal vertical
          ((xmax b - xmin b) / inject_Z horizontal)
          ((ymax b - ymin b) / inject_Z vertical)).
Proof.
  intros Hmax Hle parts horizontal vertical.
  assert (Hparts : (1 <= parts)%Z).
  { change 1%Z with (Qceiling (inject_Z 1)).
    apply Qceiling_resp_le. apply Qle_shift_div_l; [assumption|].
    change (inject_Z 1) with 1. lra. }
  assert (Hh : (1 <= horizontal)%Z).
  { pose proof (Z.sqrt_up_spec parts ltac:(lia)) as [_ Hs].
    pose proof (Z.sqrt_up_nonneg parts). subst horizontal. nia. }
  assert (HhQ : 0 < inject_Z horizontal).
  { change 0 with (inject_Z 0). rewrite <- Zlt_Qlt. lia. }
  assert (Hpv : inject_Z parts <= inject_Z vertical * inject_Z horizontal).
  { pose proof (Qle_ceiling (inject_Z parts / inject_Z horizontal)) as Hc.
    fold vertical in Hc.
    assert (E : inject_Z parts ==
                inject_Z parts / inject_Z horizontal * inject_Z horizontal)
      by (field; lra).
    rewrite E at 1. apply Qmult_le_compat_r; lra. }
  assert (Hhv : (parts <= horizontal * vertical)%Z).
  { rewrite <- inject_Z_mult, <- Zle_Qle in Hpv. lia. }
  assert (Hv : (1 <= vertical)%Z) by nia.
  assert (HvQ : 0 < inject_Z vertical).
  { change 0 with (inject_Z 0). rewrite <- Zlt_Qlt. lia. }
  repeat split; try assumption.
  unfold polygons.
  destruct (Qlt_bool area maxq) eqn:E.
  { apply Qlt_bool_iff in E. lra. }
  rewrite py_div_ok by lra. simpl. fold parts.
  unfold ceil_sqrt. destruct (parts <? 0)%Z eqn:E2; [lia|]. simpl.
  fold horizontal. rewrite py_div_ok by lra. simpl. fold vertical.
  rewrite !py_div_ok by lra. reflexivity.
Qed.

(** ** Place names that cannot be resolved *)

(** C1, on the code: when [placegetter] finds no bounding box, the
    unpacking of line 178 raises [TypeError] before the test of line 179
    is reached; no warning is issued and the call does not return. *)
Theorem create_from_osm_place_not_found
    placegetter haversine place_found maxq count w s e n name report modes :
  (count <= 0)%Z -> modes <> ModesOther -> placegetter name = (None, report) ->
  let r := create_from_osm placegetter haversine place_found maxq
             count w s e n (Some name) modes in
  outcome r = Raise TypeError /\ forall msg, ~ In (Warn msg) (events r).
Proof.
  intros Hc Hm Hp r. subst r. unfold create_from_osm.
  destruct (0 <? count)%Z eqn:E; [lia|].
  destruct modes as [l|m|]; [| |contradiction];
    unfold resolve_bbox; rewrite Hp; simpl; (split; [reflexivity|]);
    intros msg [H|[H|[H|[]]]]; discriminate.
Qed.

Lemma create_from_osm_place_not_found_witness :
  let r := create_from_osm (fun _ => (None, ["no results"%string])) (fun _ _ _ _ => 0)
             (fun _ => false) 2500000000 0 None None None None
             (Some "Atlantis"%string) (ModesList ["car"%string]) in
  outcome r = Raise TypeError /\ forall msg, ~ In (Warn msg) (events r).
Proof.
  apply (create_from_osm_place_not_found _ _ _ _ 0%Z None None None None
           "Atlantis"%string ["no results"%string]).
  - lia.
  - discriminate.
  - reflexivity.
Defined.

(** ** Preconditions *)

(** X1: a network that has links already is refused before anything is done. *)
Theorem create_from_osm_not_empty
    placegetter haversine place_found maxq count w s e n place_name modes :
  (0 < count)%Z ->
  create_from_osm placegetter haversine place_found maxq count w s e n place_name modes =
  Run [] (Raise (FileExistsError
    "You can only import an OSM network into a brand new model file")).
Proof.
  intros H. unfold create_from_osm. destruct (0 <? count)%Z eqn:E; [reflexivity | lia].
Qed.

Lemma create_from_osm_not_empty_witness :
  create_from_osm (fun _ => (None, [])) (fun _ _ _ _ => 0) (fun _ => false) 1 3
    None None None None (Some "Atlantis"%string) (ModesStr "car") =
  Run [] (Raise (FileExistsError
    "You can only import an OSM network into a brand new model file")).
Proof.
  apply (create_from_osm_not_empty _ _ _ _ 3%Z). reflexivity.
Defined.

(** X2: coordinates out of [-180, 180] and [-90, 90] are refused. *)
Theorem create_from_osm_out_of_bounds
    placegetter haversine place_found maxq count w s e n modes :
  (count <= 0)%Z -> modes <> ModesOther -> out_of_bounds w s e n = true ->
  outcome (create_from_osm placegetter haversine place_found maxq count
             (Some w) (Some s) (Some e) (Some n) None modes) =
  Raise (ValueError "Coordinates out of bounds").
Proof.
  intros Hc Hm Ho. unfold create_from_osm.
  destruct (0 <? count)%Z eqn:E; [lia|].
  destruct modes as [l|m|]; [| |contradiction];
    now rewrite resolve_bbox_coordinates, Ho.
Qed.

Lemma create_from_osm_out_of_bounds_witness :
  outcome (create_from_osm (fun _ => (None, [])) (fun _ _ _ _ => 0) (fun _ => false) 1 0
             (Some 0) (Some 0) (Some 181) (Some 1) None (ModesStr "car")) =
  Raise (ValueError "Coordinates out of bounds").
Proof.
  apply create_from_osm_out_of_bounds; [lia | discriminate | reflexivity].
Defined.

(** ** One tile *)

(** C2 as stated fails: a valid rectangle of zero width has area [0];
    with [max_query_area_size = 0] the test [area < max_query_area_size]
    is false and [area / max_query_area_size] raises. *)
Lemma polygons_zero_limit_raises :
  valid (Box 10 0 10 1) /\ 0 <= 0 /\
  polygons (Box 10 0 10 1) 0 0 = Raise ZeroDivisionError.
Proof. repeat split. discriminate. Qed.

(** C2, amended: below the limit the tiling step returns the input
    rectangle itself; at the limit, when the limit is not zero, it takes
    the split path with a grid of one cell, which is numerically the
    input rectangle. *)
Theorem polygons_single_tile b area maxq :
  (area < maxq -> polygons b area maxq = Ok [b]) /\
  (area == maxq -> 0 < maxq -> valid b ->
   exists t, polygons b area maxq = Ok [t] /\ box_eq t b).
Proof.
  split.
  - intros H. unfold polygons. apply Qlt_bool_iff in H. now rewrite H.
  - intros Heq Hmax Hv.
    destruct (polygons_split_eq b area maxq) as (_ & _ & _ & _ & ->);
      [assumption | lra |].
    assert (E : Qceiling (area / maxq) = 1%Z).
    { rewrite (Qceiling_comp (area / maxq) (inject_Z 1)); [apply Qceiling_Z|].
      change (inject_Z 1) with 1. field_simplify_eq; lra. }
    rewrite E. change (Z.sqrt_up 1) with 1%Z.
    change (Qceiling (inject_Z 1 / inject_Z 1)) with 1%Z.
    eexists. split; [reflexivity|].
    apply valid_bounds in Hv. destruct Hv as ((?&?)&(?&?)&(?&?)&(?&?)).
    unfold box_eq; simpl. change (inject_Z 1) with 1. change (inject_Z 0) with 0.
    repeat split.
    + rewrite Q.max_r; [field | ]. field_simplify. lra.
    + rewrite Q.max_r; [field | ]. field_simplify. lra.
    + assert (E1 : xmin b + (0 + 1) * ((xmax b - xmin b) / 1) == xmax b) by field.
      rewrite E1. now apply Q.min_r.
    + assert (E1 : ymin b + (0 + 1) * ((ymax b - ymin b) / 1) == ymax b) by field.
      rewrite E1. now apply Q.min_r.
Qed.
(** ** Several tiles *)

(** C3 as stated fails: with [max_query_area_size = 0] every positive
    area exceeds the limit, and [area / max_query_area_size] raises. *)
Lemma polygons_split_zero_limit_raises :
  valid (Box 0 0 1 1) /\ 0 < 1 /\
  polygons (Box 0 0 1 1) 1 0 = Raise ZeroDivisionError.
Proof. repeat split. Qed.

(** C3, amended: for a valid rectangle whose area exceeds a positive
    [max_query_area_size], the tiling step returns the grid of
    [horizontal * vertical >= parts] cells, cell [(i, j)] at position
    [i * vertical + j] spanning the [i]-th of [horizontal] equal parts of
    the longitudes and the [j]-th of [vertical] equal parts of the
    latitudes, clamped to [-180, 180] and [-90, 90]; the cells cover the
    rectangle; an area of 2.4 limits gives 4 tiles. *)
Theorem polygons_split b area maxq :
  valid b -> 0 < maxq -> maxq < area ->
  let parts := Qceiling (area / maxq) in
  let horizontal := Z.sqrt_up parts in
  let vertical := Qceiling (inject_Z parts / inject_Z horizontal) in
  let dx := (xmax b - xmin b) / inject_Z horizontal in
  let dy := (ymax b - ymin b) / inject_Z vertical in
  exists tiles,
    polygons b area maxq = Ok tiles /\
    length tiles = Z.to_nat (horizontal * vertical) /\
    (parts <= horizontal * vertical)%Z /\
    (forall i j, (i < Z.to_nat horizontal)%nat -> (j < Z.to_nat vertical)%nat ->
       nth_error tiles (i * Z.to_nat vertical + j) =
       Some (Box (Qmax (-180) (xmin b + inject_Z (Z.of_nat i) * dx))
                 (Qmax (-90) (ymin b + inject_Z (Z.of_nat j) * dy))
                 (Qmin 180 (xmin b + (inject_Z (Z.of_nat i) + 1) * dx))
                 (Qmin 90 (ymin b + (inject_Z (Z.of_nat j) + 1) * dy)))) /\
    (forall x y, inside x y b -> exists t, In t tiles /\ inside x y t) /\
    (area == (12 # 5) * maxq -> length tiles = 4%nat).
Proof.
  intros Hv Hmax Hgt parts horizontal vertical dx dy.
  destruct (polygons_split_eq b area maxq) as (Hp & Hh & Hvv & Hhv & Heq);
    [assumption | lra |].
  fold parts horizontal vertical dx dy in Hp, Hh, Hvv, Hhv, Heq.
  eexists. split; [exact Heq|]. split; [|split; [assumption|split; [|split]]].
  - rewrite length_grid, Z2Nat.inj_mul by lia. reflexivity.
  - intros i j Hi Hj. now apply nth_error_grid.
  - intros x y Hin. apply grid_covers; [assumption | lia | lia | assumption].
  - intros E. rewrite length_grid.
    assert (E1 : parts = 3%Z).
    { subst parts. rewrite (Qceiling_comp (area / maxq) (12 # 5)); [reflexivity|].
      field_simplify_eq; lra. }
    subst horizontal vertical. rewrite E1. reflexivity.
Qed.

Lemma polygons_split_witness :
  exists tiles, polygons (Box 0 0 2 2) (12 # 5) 1 = Ok tiles /\ length tiles = 4%nat.
Proof.
  destruct (polygons_split (Box 0 0 2 2) (12 # 5) 1) as (tiles & H & _ & _ & _ & _ & H4).
  - reflexivity.
  - reflexivity.
  - reflexivity.
  - exists tiles. split; [exact H | apply H4; reflexivity].
Defined.

(** ** The shape of the result *)

(** What [polygons] returns when it returns: the rectangle itself, or a
    grid with at least one column and one row. *)
Lemma polygons_inv b area maxq tiles :
  polygons b area maxq = Ok tiles ->
  (area < maxq /\ tiles = [b]) \/
  (maxq <= area /\
   exists h v, (0 < h)%Z /\ (0 < v)%Z /\
     tiles = grid (xmin b) (ymin b) (xmax b) (ymax b) h v
               ((xmax b - xmin b) / inject_Z h) ((ymax b - ymin b) / inject_Z v)).
Proof.
  unfold polygons. destruct (Qlt_bool area maxq) eqn:E.
  - intros H. injection H as <-. left. split; [now apply Qlt_bool_iff | reflexivity].
  - apply Qlt_bool_false in E. intros H. right. split; [assumption|].
    unfold py_div at 1 in H. destruct (Qeq_bool maxq 0); [discriminate|]. simpl in H.
    unfold ceil_sqrt in H. destruct (Qceiling (area / maxq) <? 0)%Z eqn:Ep; [discriminate|].
    simpl in H. apply Z.ltb_ge in Ep.
    set (parts := Qceiling (area / maxq)) in *.
    set (h := Z.sqrt_up parts) in *.
    unfold py_div at 1 in H. destruct (Qeq_bool (inject_Z h) 0) eqn:Eh; [discriminate|].
    simpl in H.
    set (v := Qceiling (inject_Z parts / inject_Z h)) in *.
    unfold py_div at 1 in H. rewrite Eh in H. simpl in H.
    unfold py_div at 1 in H. destruct (Qeq_bool (inject_Z v) 0) eqn:Ev; [discriminate|].
    simpl in H. injection H as <-.
    assert (Hh : (0 < h)%Z).
    { pose proof (Z.sqrt_up_nonneg parts). fold h in H.
      destruct (Z.eq_dec h 0%Z) as [E0|]; [|lia].
      rewrite E0 in Eh. discriminate. }
    assert (Hv : (0 < v)%Z).
    { assert (0 <= v)%Z.
      { change 0%Z with (Qceiling (inject_Z 0)). apply Qceiling_resp_le.
        apply Qle_shift_div_l.
        - change 0 with (inject_Z 0). rewrite <- Zlt_Qlt. assumption.
        - change (inject_Z 0) with 0. ring_simplify.
          change 0 with (inject_Z 0). rewrite <- Zle_Qle. assumption. }
      destruct (Z.eq_dec v 0%Z) as [E0|]; [|lia].
      rewrite E0 in Ev. discriminate. }
    exists h, v. repeat split; assumption.
Qed.

(** The cells of a grid, by position. *)
Lemma nth_error_grid_inv w s e n h v dx dy p t :
  nth_error (grid w s e n h v dx dy) p = Some t ->
  exists i j, (i < Z.to_nat h)%nat /\ (j < Z.to_nat v)%nat /\
    p = (i * Z.to_nat v + j)%nat /\
    t = Box (Qmax (-180) (w + inject_Z (Z.of_nat i) * dx))
            (Qmax (-90) (s + inject_Z (Z.of_nat j) * dy))
            (Qmin 180 (w + (inject_Z (Z.of_nat i) + 1) * dx))
            (Qmin 90 (s + (inject_Z (Z.of_nat j) + 1) * dy)).
Proof.
  intros Hp.
  assert (Hlen : (p < Z.to_nat h * Z.to_nat v)%nat).
  { rewrite <- (length_grid w s e n h v dx dy). apply nth_error_Some. congruence. }
  assert (Hv : (0 < Z.to_nat v)%nat) by nia.
  exists (p / Z.to_nat v)%nat, (p mod Z.to_nat v)%nat.
  assert (Hi : (p / Z.to_nat v < Z.to_nat h)%nat).
  { apply Nat.Div0.div_lt_upper_bound. lia. }
  assert (Hj : (p mod Z.to_nat v < Z.to_nat v)%nat) by (apply Nat.mod_upper_bound; lia).
  assert (E : p = (p / Z.to_nat v * Z.to_nat v + p mod Z.to_nat v)%nat).
  { rewrite (Nat.div_mod_eq p (Z.to_nat v)) at 1. lia. }
  repeat split; try assumption.
  rewrite E in Hp. rewrite nth_error_grid in Hp by assumption. congruence.
Qed.

(** A point [k / n] of the way from [lo] to [hi] lies between them. *)
Lemma cell_axis_bounds A B lo hi (n k : Z) :
  (0 < n)%Z -> (0 <= k <= n)%Z -> A <= lo <= B -> A <= hi <= B ->
  A <= lo + inject_Z k * ((hi - lo) / inject_Z n) <= B.
Proof.
  intros Hn Hk Hlo Hhi.
  assert (HnQ : 0 < inject_Z n) by (change 0 with (inject_Z 0); rewrite <- Zlt_Qlt; lia).
  set (t := inject_Z k / inject_Z n).
  assert (Ht0 : 0 <= t).
  { apply Qle_shift_div_l; [assumption|]. ring_simplify.
    change 0 with (inject_Z 0). rewrite <- Zle_Qle. lia. }
  assert (Ht1 : t <= 1).
  { apply Qle_shift_div_r; [assumption|]. ring_simplify. rewrite <- Zle_Qle. lia. }
  assert (E : lo + inject_Z k * ((hi - lo) / inject_Z n) == lo + t * (hi - lo)).
  { unfold t. field. lra. }
  rewrite E. split; nra.
Qed.

Lemma inject_Z_of_nat_bounds (i : nat) (h : Z) :
  (i < Z.to_nat h)%nat -> (0 <= Z.of_nat i <= h)%Z /\ (0 <= Z.of_nat i + 1 <= h)%Z.
Proof. lia. Qed.

(** A cell of the grid of a valid rectangle, without the clamping. *)
Lemma grid_cell_unclamped b (h v : Z) (i j : nat) :
  valid b -> (i < Z.to_nat h)%nat -> (j < Z.to_nat v)%nat ->
  let dx := (xmax b - xmin b) / inject_Z h in
  let dy := (ymax b - ymin b) / inject_Z v in
  box_eq (Box (Qmax (-180) (xmin b + inject_Z (Z.of_nat i) * dx))
              (Qmax (-90) (ymin b + inject_Z (Z.of_nat j) * dy))
              (Qmin 180 (xmin b + (inject_Z (Z.of_nat i) + 1) * dx))
              (Qmin 90 (ymin b + (inject_Z (Z.of_nat j) + 1) * dy)))
         (Box (xmin b + inject_Z (Z.of_nat i) * dx)
              (ymin b + inject_Z (Z.of_nat j) * dy)
              (xmin b + (inject_Z (Z.of_nat i) + 1) * dx)
              (ymin b + (inject_Z (Z.of_nat j) + 1) * dy)).
Proof.
  intros Hb Hi Hj dx dy.
  apply valid_bounds in Hb. destruct Hb as (Hw & He & Hs & Hn).
  pose proof (cell_axis_bounds (-180) 180 (xmin b) (xmax b) h (Z.of_nat i)
                ltac:(lia) ltac:(lia) Hw He) as Hx0.
  pose proof (cell_axis_bounds (-180) 180 (xmin b) (xmax b) h (Z.of_nat i + 1)
                ltac:(lia) ltac:(lia) Hw He) as Hx1.
  pose proof (cell_axis_bounds (-90) 90 (ymin b) (ymax b) v (Z.of_nat j)
                ltac:(lia) ltac:(lia) Hs Hn) as Hy0.
  pose proof (cell_axis_bounds (-90) 90 (ymin b) (ymax b) v (Z.of_nat j + 1)
                ltac:(lia) ltac:(lia) Hs Hn) as Hy1.
  rewrite inject_Z_plus in Hx1, Hy1. change (inject_Z 1) with 1 in Hx1, Hy1.
  fold dx in Hx0, Hx1. fold dy in Hy0, Hy1.
  unfold box_eq; simpl. repeat split.
  - apply Q.max_r. tauto.
  - apply Q.max_r. tauto.
  - apply Q.min_r. tauto.
  - apply Q.min_r. tauto.
Qed.

(** ** Tiles of a rectangle that passed the bounds test *)

(** X7: every tile of a valid rectangle passes the bounds test itself, and
    when west is not east of east and south not north of north no tile
    reaches out of the rectangle. *)
Theorem polygons_tiles_within b area maxq tiles :
  valid b -> polygons b area maxq = Ok tiles ->
  forall t, In t tiles ->
    valid t /\
    (xmin b <= xmax b -> ymin b <= ymax b ->
     forall x y, inside x y t -> inside x y b).
Proof.
  intros Hb Hp t Ht.
  destruct (polygons_inv _ _ _ _ Hp) as [[_ ->]|(_ & h & v & Hh & Hv & ->)].
  - destruct Ht as [<-|[]]. split; [assumption | auto].
  - apply In_grid in Ht. destruct Ht as (i & j & Hi & Hj & ->).
    pose proof (grid_cell_unclamped b h v i j Hb Hi Hj) as (E1 & E2 & E3 & E4).
    simpl in E1, E2, E3, E4.
    pose proof Hb as Hb'. apply valid_bounds in Hb'. destruct Hb' as (Hw & He & Hs & Hn).
    pose proof (cell_axis_bounds (-180) 180 (xmin b) (xmax b) h (Z.of_nat i)
                  ltac:(lia) ltac:(lia) Hw He) as Hx0.
    pose proof (cell_axis_bounds (-180) 180 (xmin b) (xmax b) h (Z.of_nat i + 1)
                  ltac:(lia) ltac:(lia) Hw He) as Hx1.
    pose proof (cell_axis_bounds (-90) 90 (ymin b) (ymax b) v (Z.of_nat j)
                  ltac:(lia) ltac:(lia) Hs Hn) as Hy0.
    pose proof (cell_axis_bounds (-90) 90 (ymin b) (ymax b) v (Z.of_nat j + 1)
                  ltac:(lia) ltac:(lia) Hs Hn) as Hy1.
    rewrite inject_Z_plus in Hx1, Hy1. change (inject_Z 1) with 1 in Hx1, Hy1.
    split.
    + apply valid_bounds; simpl. rewrite E1, E2, E3, E4. tauto.
    + intros Hwe Hsn x y (H1 & H2 & H3 & H4). simpl in H1, H2, H3, H4.
      rewrite E1 in H1. rewrite E3 in H2. rewrite E2 in H3. rewrite E4 in H4.
      pose proof (cell_axis_bounds (xmin b) (xmax b) (xmin b) (xmax b) h (Z.of_nat i)
                    ltac:(lia) ltac:(lia) ltac:(lra) ltac:(lra)) as Gx0.
      pose proof (cell_axis_bounds (xmin b) (xmax b) (xmin b) (xmax b) h (Z.of_nat i + 1)
                    ltac:(lia) ltac:(lia) ltac:(lra) ltac:(lra)) as Gx1.
      pose proof (cell_axis_bounds (ymin b) (ymax b) (ymin b) (ymax b) v (Z.of_nat j)
                    ltac:(lia) ltac:(lia) ltac:(lra) ltac:(lra)) as Gy0.
      pose proof (cell_axis_bounds (ymin b) (ymax b) (ymin b) (ymax b) v (Z.of_nat j + 1)
                    ltac:(lia) ltac:(lia) ltac:(lra) ltac:(lra)) as Gy1.
      rewrite inject_Z_plus in Gx1, Gy1. change (inject_Z 1) with 1 in Gx1, Gy1.
      unfold inside. lra.
Qed.

Lemma polygons_tiles_within_witness :
  exists tiles t,
    polygons (Box 0 0 2 2) (12 # 5) 1 = Ok tiles /\ nth_error tiles 3 = Some t /\
    valid t /\ forall x y, inside x y t -> inside x y (Box 0 0 2 2).
Proof.
  eexists _, _. split; [reflexivity|]. split; [reflexivity|].
  match goal with
  | |- valid ?t /\ _ =>
      assert (Hin : In t (grid 0 0 2 2 2 2 (2 # 2) (2 # 2)))
        by (apply (nth_error_In _ 3); reflexivity)
  end.
  destruct (polygons_tiles_within (Box 0 0 2 2) (12 # 5) 1 _ eq_refl eq_refl _ Hin)
    as [H1 H2].
  split; [exact H1 | apply H2; discriminate].
Defined.

(** X8: in the grid of a valid rectangle the clamping to the world bounds
    changes no cell: cell [(i, j)] is the [i]-th of [horizontal] equal
    parts of the longitudes by the [j]-th of [vertical] equal parts of
    the latitudes, so that neighbours share their edges and the outer
    edges are those of the rectangle. *)
Theorem polygons_cells_unclamped b area maxq tiles :
  valid b -> maxq <= area -> polygons b area maxq = Ok tiles ->
  exists (h v : nat) (dx dy : Q),
    (0 < h)%nat /\ (0 < v)%nat /\ length tiles = (h * v)%nat /\
    xmin b + inject_Z (Z.of_nat h) * dx == xmax b /\
    ymin b + inject_Z (Z.of_nat v) * dy == ymax b /\
    forall i j, (i < h)%nat -> (j < v)%nat ->
      exists t, nth_error tiles (i * v + j) = Some t /\
        box_eq t (Box (xmin b + inject_Z (Z.of_nat i) * dx)
                      (ymin b + inject_Z (Z.of_nat j) * dy)
                      (xmin b + (inject_Z (Z.of_nat i) + 1) * dx)
                      (ymin b + (inject_Z (Z.of_nat j) + 1) * dy)).
Proof.
  intros Hb Hle Hp.
  destruct (polygons_inv _ _ _ _ Hp) as [[Hlt _]|(_ & h & v & Hh & Hv & ->)]; [lra|].
  assert (HhQ : ~ inject_Z h == 0).
  { intros E. apply (inject_Z_injective h 0) in E. lia. }
  assert (HvQ : ~ inject_Z v == 0).
  { intros E. apply (inject_Z_injective v 0) in E. lia. }
  exists (Z.to_nat h), (Z.to_nat v), ((xmax b - xmin b) / inject_Z h),
    ((ymax b - ymin b) / inject_Z v).
  rewrite !Z2Nat.id by lia.
  split; [lia|]. split; [lia|]. split; [apply length_grid|].
  split; [field; assumption|]. split; [field; assumption|].
  intros i j Hi Hj. eexists. split; [now apply nth_error_grid|].
  now apply grid_cell_unclamped.
Qed.

Lemma polygons_cells_unclamped_witness :
  exists tiles (h v : nat),
    polygons (Box 0 0 2 2) (12 # 5) 1 = Ok tiles /\
    (0 < h)%nat /\ (0 < v)%nat /\ length tiles = (h * v)%nat.
Proof.
  eassert (E : polygons (Box 0 0 2 2) (12 # 5) 1 = Ok _) by reflexivity.
  destruct (polygons_cells_unclamped (Box 0 0 2 2) (12 # 5) 1 _ eq_refl
              ltac:(discriminate) E) as (h & v & dx & dy & H1 & H2 & H3 & _).
  eexists _, h, v. split; [exact E|]. repeat split; assumption.
Defined.

(** ** Tiles do not overlap *)

(** Two cells of one axis that hold the same point between their edges
    are one cell. *)
Lemma cells_apart A B lo d (i i' : nat) x :
  Qmax A (lo + inject_Z (Z.of_nat i) * d) < x ->
  x < Qmin B (lo + (inject_Z (Z.of_nat i) + 1) * d) ->
  Qmax A (lo + inject_Z (Z.of_nat i') * d) < x ->
  x < Qmin B (lo + (inject_Z (Z.of_nat i') + 1) * d) ->
  i = i'.
Proof.
  intros H1 H2 H3 H4.
  apply Q.max_lub_lt_iff in H1, H3. apply Q.min_glb_lt_iff in H2, H4.
  destruct H1 as [_ H1], H2 as [_ H2], H3 as [_ H3], H4 as [_ H4].
  assert (Hd : 0 < d) by lra.
  assert (forall a c : nat, (a < c)%nat ->
            (inject_Z (Z.of_nat a) + 1) * d <= inject_Z (Z.of_nat c) * d) as Hmono.
  { intros a c Hac. apply Qmult_le_compat_r; [|lra].
    change 1 with (inject_Z 1). rewrite <- inject_Z_plus, <- Zle_Qle. lia. }
  destruct (Nat.lt_trichotomy i i') as [Hlt|[Heq|Hgt]]; [|assumption|].
  - specialize (Hmono i i' Hlt). lra.
  - specialize (Hmono i' i Hgt). lra.
Qed.

(** X9: no point lies in the interior of two tiles: the tiles at two
    positions that hold a point in their interiors are the same
    position. *)
Theorem polygons_interiors_disjoint b area maxq tiles p q t t' x y :
  polygons b area maxq = Ok tiles ->
  nth_error tiles p = Some t -> nth_error tiles q = Some t' ->
  interior x y t -> interior x y t' -> p = q.
Proof.
  intros Hp Ht Ht' Hin Hin'.
  destruct (polygons_inv _ _ _ _ Hp) as [[_ ->]|(_ & h & v & Hh & Hv & ->)].
  - destruct p as [|[|p]], q as [|[|q]]; try discriminate; reflexivity.
  - apply nth_error_grid_inv in Ht, Ht'.
    destruct Ht as (i & j & Hi & Hj & -> & ->).
    destruct Ht' as (i' & j' & Hi' & Hj' & -> & ->).
    destruct Hin as (H1 & H2 & H3 & H4), Hin' as (H1' & H2' & H3' & H4').
    simpl in *.
    rewrite (cells_apart _ _ _ _ i i' x H1 H2 H1' H2').
    rewrite (cells_apart _ _ _ _ j j' y H3 H4 H3' H4').
    reflexivity.
Qed.

Lemma polygons_interiors_disjoint_witness :
  exists t, nth_error (grid 0 0 2 2 2 2 1 1) 3 = Some t /\ interior (3 # 2) (3 # 2) t /\
            3%nat = 3%nat.
Proof.
  exists (Box (Qmax (-180) (0 + inject_Z 1 * 1)) (Qmax (-90) (0 + inject_Z 1 * 1))
              (Qmin 180 (0 + (inject_Z 1 + 1) * 1)) (Qmin 90 (0 + (inject_Z 1 + 1) * 1))).
  split; [reflexivity|].
  assert (I : interior (3 # 2) (3 # 2)
                (Box (Qmax (-180) (0 + inject_Z 1 * 1)) (Qmax (-90) (0 + inject_Z 1 * 1))
                   (Qmin 180 (0 + (inject_Z 1 + 1) * 1)) (Qmin 90 (0 + (inject_Z 1 + 1) * 1)))).
  { repeat split. }
  split; [exact I|].
  apply (polygons_interiors_disjoint (Box 0 0 2 2) (12 # 5) 1 _ 3 3 _ _ (3 # 2) (3 # 2)
           eq_refl eq_refl eq_refl I I).
Defined.

(** ** The shape of the grid *)

(** X10: the grid has as many rows as columns, or one row less, and fewer
    than [horizontal] tiles more than [parts]. *)
Theorem polygons_near_square b area maxq :
  0 < maxq -> maxq <= area ->
  let parts := Qceiling (area / maxq) in
  exists (horizontal vertical : Z) tiles,
    polygons b area maxq = Ok tiles /\
    length tiles = Z.to_nat (horizontal * vertical) /\
    ((horizontal - 1) * (horizontal - 1) < parts <= horizontal * horizontal)%Z /\
    (horizontal - 1 <= vertical <= horizontal)%Z /\
    (parts <= horizontal * vertical < parts + horizontal)%Z.
Proof.
  intros Hmax Hle parts.
  destruct (polygons_split_eq b area maxq Hmax Hle) as (Hp & Hh & Hv & Hhv & Heq).
  fold parts in Hp, Hh, Hv, Hhv, Heq.
  set (h := Z.sqrt_up parts) in *.
  set (v := Qceiling (inject_Z parts / inject_Z h)) in *.
  exists h, v. eexists. split; [exact Heq|].
  split; [rewrite length_grid, Z2Nat.inj_mul by lia; reflexivity|].
  pose proof (Z.sqrt_up_spec parts ltac:(lia)) as [Hs1 Hs2]. fold h in Hs1, Hs2.
  assert (HhQ : 0 < inject_Z h) by (change 0 with (inject_Z 0); rewrite <- Zlt_Qlt; lia).
  assert (Hlt : (h * v < parts + h)%Z).
  { pose proof (Qceiling_lt (inject_Z parts / inject_Z h)) as Hc. fold v in Hc.
    apply (Qmult_lt_compat_r _ _ (inject_Z h)) in Hc; [|assumption].
    assert (E : inject_Z parts / inject_Z h * inject_Z h == inject_Z parts)
      by (field; lra).
    rewrite E, <- inject_Z_mult, <- Zlt_Qlt in Hc. lia. }
  split; [unfold Z.pred in Hs1; split; [nia | nia]|].
  split; [|lia].
  unfold Z.pred in Hs1. split; nia.
Qed.

Lemma polygons_near_square_witness :
  exists tiles, polygons (Box 0 0 2 2) (12 # 5) 1 = Ok tiles /\ length tiles = 4%nat.
Proof.
  destruct (polygons_near_square (Box 0 0 2 2) (12 # 5) 1 eq_refl)
    as (h & v & tiles & H1 & H2 & H3 & H4 & H5).
  - discriminate.
  - exists tiles. split; [exact H1|].
    change (Qceiling ((12 # 5) / 1)) with 3%Z in H3, H5.
    assert (h = 2%Z) by nia. assert (v = 2%Z) by nia. subst h v. exact H2.
Defined.

(** ** What a call does besides returning *)

(** X4: with a place name that is found, the coordinates passed are never
    looked at and the bounding box of the place is not put to the bounds
    test: when its area is below the limit the call alters the tables,
    logs the lines of the report that hold "PLACE FOUND", downloads the
    one tile that is the bounding box of the place, builds the network
    and returns. *)
Theorem create_from_osm_place_found
    placegetter haversine place_found maxq count w s e n name b report modes :
  (count <= 0)%Z -> modes <> ModesOther -> placegetter name = (Some b, report) ->
  haversine ((xmax b + xmin b) / 2) (ymin b) ((xmax b + xmin b) / 2) (ymax b) *
  haversine (xmax b) ((ymax b + ymin b) / 2) (xmin b) ((ymax b + ymin b) / 2) < maxq ->
  create_from_osm placegetter haversine place_found maxq count w s e n (Some name) modes =
  Run ([AlterTable "links"; AlterTable "nodes"; Commit] ++
       map LogInfo (List.filter place_found report) ++
       [LogInfo "Downloading data";
        Download [b] match modes with
                     | ModesList l => l
                     | ModesStr m => [m]
                     | ModesOther => []
                     end;
        LogInfo "Building Network"; Build; LogInfo "Network built successfully"])
      (Ok tt).
Proof.
  intros Hc Hm Hp Harea. unfold create_from_osm.
  destruct (0 <? count)%Z eqn:E; [lia|].
  apply Qlt_bool_iff in Harea.
  destruct b as [bw bs be bn]. cbn [xmin ymin xmax ymax] in Harea.
  destruct modes as [l|m|]; [| |contradiction];
    unfold resolve_bbox; rewrite Hp; cbn [unpack xmin ymin xmax ymax];
    unfold polygons; cbn [xmin ymin xmax ymax]; rewrite Harea; reflexivity.
Qed.

Lemma create_from_osm_place_found_witness :
  create_from_osm (fun _ => (Some (Box 170 0 190 1), ["PLACE FOUND: Taveuni"%string]))
    (fun _ _ _ _ => 1) (fun _ => true) 2 0 None None None None
    (Some "Taveuni"%string) (ModesStr "car") =
  Run [AlterTable "links"; AlterTable "nodes"; Commit;
       LogInfo "PLACE FOUND: Taveuni";
       LogInfo "Downloading data"; Download [Box 170 0 190 1] ["car"%string];
       LogInfo "Building Network"; Build; LogInfo "Network built successfully"]
      (Ok tt).
Proof.
  apply (create_from_osm_place_found
           (fun _ => (Some (Box 170 0 190 1), ["PLACE FOUND: Taveuni"%string]))
           (fun _ _ _ _ => 1) (fun _ => true) 2 0%Z None None None None "Taveuni"
           (Box 170 0 190 1) ["PLACE FOUND: Taveuni"%string] (ModesStr "car")).
  - lia.
  - discriminate.
  - reflexivity.
  - reflexivity.
Defined.

(** X5: a call on a network without links adds the [osm_id] columns and
    commits before it looks at its arguments: also a call that raises
    has altered the two tables. *)
Theorem create_from_osm_alters_tables
    placegetter haversine place_found maxq count w s e n place_name modes :
  (count <= 0)%Z ->
  exists rest,
    events (create_from_osm placegetter haversine place_found maxq count w s e n
              place_name modes) =
    AlterTable "links" :: AlterTable "nodes" :: Commit :: rest.
Proof.
  intros Hc. unfold create_from_osm. destruct (0 <? count)%Z eqn:E; [lia|].
  destruct modes as [l|m|]; [| |eexists; reflexivity];
    destruct (resolve_bbox _ _ _ _ _ _ _) as [ev1 [[bbox|]|e0]];
    try (eexists; reflexivity);
    destruct (polygons _ _ _); eexists; reflexivity.
Qed.

Lemma create_from_osm_alters_tables_witness :
  exists rest,
    events (create_from_osm (fun _ => (None, [])) (fun _ _ _ _ => 0) (fun _ => false) 1 0
              (Some 0) (Some 0) (Some 181) (Some 1) None ModesOther) =
    AlterTable "links" :: AlterTable "nodes" :: Commit :: rest.
Proof. apply create_from_osm_alters_tables. lia. Defined.

Lemma downloads_app l1 l2 : downloads (l1 ++ l2) = downloads l1 ++ downloads l2.
Proof. unfold downloads. apply flat_map_app. Qed.

Lemma downloads_log l : downloads (map LogInfo l) = [].
Proof. induction l; [reflexivity | assumption]. Qed.

Lemma downloads_resolve_bbox placegetter place_found w s e n place_name :
  downloads (resolve_bbox placegetter place_found w s e n place_name).1 = [].
Proof.
  unfold resolve_bbox. destruct place_name as [name|].
  - destruct (placegetter name) as [[[? ? ? ?]|] report]; simpl;
      [apply downloads_log | reflexivity].
  - repeat case_match; reflexivity.
Qed.

Lemma resolve_bbox_found placegetter place_found w s e n place_name ev1 :
  resolve_bbox placegetter place_found w s e n place_name <> (ev1, Ok None).
Proof.
  unfold resolve_bbox. destruct place_name as [name|].
  - destruct (placegetter name) as [[[? ? ? ?]|] report]; simpl; congruence.
  - repeat case_match; congruence.
Qed.

(** X6: a call that raises has started no download; a call that returns has
    started exactly one, for the tiles of the tiling step and the modes
    it was given. *)
Theorem create_from_osm_downloads
    placegetter haversine place_found maxq count w s e n place_name modes :
  let r := create_from_osm placegetter haversine place_found maxq count w s e n
             place_name modes in
  match outcome r with
  | Raise _ => downloads (events r) = []
  | Ok _ =>
      exists ev bbox tiles,
        resolve_bbox placegetter place_found w s e n place_name = (ev, Ok (Some bbox)) /\
        polygons bbox
          (haversine ((xmax bbox + xmin bbox) / 2) (ymin bbox)
                     ((xmax bbox + xmin bbox) / 2) (ymax bbox) *
           haversine (xmax bbox) ((ymax bbox + ymin bbox) / 2)
                     (xmin bbox) ((ymax bbox + ymin bbox) / 2)) maxq = Ok tiles /\
        downloads (events r) =
          [(tiles, match modes with
                   | ModesList l => l
                   | ModesStr m => [m]
                   | ModesOther => []
                   end)]
  end.
Proof.
  unfold create_from_osm. destruct (0 <? count)%Z; [reflexivity|].
  pose proof (downloads_resolve_bbox placegetter place_found w s e n place_name) as Hr.
  pose proof (resolve_bbox_found placegetter place_found w s e n place_name) as Hf.
  destruct modes as [l|m|]; [| |reflexivity].
  all: destruct (resolve_bbox _ _ _ _ _ _ _) as [ev1 [[bbox|]|e0]] eqn:Er; simpl in Hr;
    [ destruct (polygons _ _ _) as [tiles|e1] eqn:Ep; simpl;
      [ rewrite downloads_app, Hr; eexists _, _, _; split; [reflexivity | split; [exact Ep | reflexivity]]
      | rewrite Hr; reflexivity ]
    | now destruct (Hf ev1)
    | simpl; rewrite Hr; reflexivity ].
Qed.

(** X29: the arguments are looked at in a fixed order, after the tables
    have been altered: a [modes] argument that is neither a string nor a
    list or tuple raises [ValueError] whatever the other arguments are;
    with good modes, no place name and [west] or [east] left at [None],
    the first comparison of line 173 raises [TypeError]. *)
Theorem create_from_osm_bad_arguments
    placegetter haversine place_found maxq count w s e n place_name modes :
  (count <= 0)%Z ->
  (modes = ModesOther ->
   create_from_osm placegetter haversine place_found maxq count w s e n place_name modes =
   Run [AlterTable "links"; AlterTable "nodes"; Commit]
     (Raise (ValueError "'modes' needs to be string or list/tuple of string"))) /\
  (modes <> ModesOther -> place_name = None ->
   w = None \/ e = None ->
   create_from_osm placegetter haversine place_found maxq count w s e n place_name modes =
   Run [AlterTable "links"; AlterTable "nodes"; Commit] (Raise TypeError)).
Proof.
  intros Hc. unfold create_from_osm. destruct (0 <? count)%Z eqn:E; [lia|]. split.
  - intros ->. reflexivity.
  - intros Hm -> Hnone.
    destruct modes as [l|m|]; [| |contradiction];
      destruct w, s, e, n; try reflexivity;
      destruct Hnone as [H|H]; discriminate.
Qed.

Lemma create_from_osm_bad_arguments_witness :
  create_from_osm (fun _ => (None, [])) (fun _ _ _ _ => 0) (fun _ => false) 1 0
    None None None None None (ModesList ["car"%string]) =
  Run [AlterTable "links"; AlterTable "nodes"; Commit] (Raise TypeError).
Proof.
  refine (proj2 (create_from_osm_bad_arguments (fun _ => (None, [])) (fun _ _ _ _ => 0)
                   (fun _ => false) 1 0%Z None None None None None
                   (ModesList ["car"%string]) _) _ eq_refl (or_introl eq_refl)).
  - lia.
  - discriminate.
Defined.

End Osm.

(** * [create_from_gmns] *)

Module Gmns.

(** ** Tables *)

(** A cell of a table read by [pd.read_csv], or a Python value put next
    to one. *)
Inductive pyval : Type :=
| VInt (z : Z)
| VFloat (q : Q)
| VNaN
| VBool (b : bool)
| VStr (s : string)
| VNone.

(** The number a value stands for in a comparison. *)
Definition num (v : pyval) : option Q :=
  match v with
  | VInt z => Some (inject_Z z)
  | VFloat q => Some q
  | VBool b => Some (if b then 1%Q else 0%Q)
  | _ => None
  end.

(** [a == b]. *)
Definition py_eq (a b : pyval) : bool :=
  match num a, num b with
  | Some x, Some y => Qeq_bool x y
  | _, _ =>
      match a, b with
      | VStr s, VStr t => bool_decide (s = t)
      | VNone, VNone => true
      | _, _ => false
      end
  end.

(** [v in l]. *)
Definition py_in (v : pyval) (l : list pyval) : bool := existsb (py_eq v) l.
Arguments py_in : simpl never.

(** [sub in s] on strings. *)
Fixpoint str_contains (sub s : string) : bool :=
  if String.prefix sub s then true
  else match s with
       | EmptyString => false
       | String _ s' => str_contains sub s'
       end.

(** A row of the links table. The grouping of line 299 names the columns
    [link_id], [from_node_id] and [to_node_id]; they hold integers. The
    other columns are in [cells]. *)
Record row : Type := Row {
  link_id : Z;
  from_node_id : Z;
  to_node_id : Z;
  cells : gmap string pyval
}.

(** [columns]: the names of the columns besides the three above. *)
Record DataFrame : Type := Frame { columns : list string; rows : list row }.

Definition columns_to_list (df : DataFrame) : list string :=
  ["link_id"; "from_node_id"; "to_node_id"]%string ++ columns df.

(** [row[field]]. *)
Definition get (r : row) (field : string) : pyval :=
  if bool_decide (field = "link_id"%string) then VInt (link_id r)
  else if bool_decide (field = "from_node_id"%string) then VInt (from_node_id r)
  else if bool_decide (field = "to_node_id"%string) then VInt (to_node_id r)
  else default VNaN (cells r !! field).

(** [df[field] = v] for a column the table lacks. *)
Definition set_column (field : string) (v : pyval) (df : DataFrame) : DataFrame :=
  Frame (columns df ++ [field])
        ((fun r => Row (link_id r) (from_node_id r) (to_node_id r)
                     (<[field := v]> (cells r))) <$> rows df).

(** ** Configuration *)

(** [parameters["network"]["gmns"]]: the names of the columns, the
    required fields and the link types of each mode. *)
Record params : Type := Params {
  gmns_link_id_field : string;
  gmns_a_node_field : string;
  gmns_b_node_field : string;
  gmns_distance_field : string;
  gmns_direction_field : string;
  gmns_speed_field : string;
  gmns_capacity_field : string;
  gmns_lanes_field : string;
  gmns_name_field : string;
  gmns_link_type_field : string;
  gmns_modes_field : string;
  gmns_geometry_field : string;
  gmns_node_id_field : string;
  required_node_fields : list string;
  required_link_fields : list string;
  bike_link_types : list pyval;
  car_link_types : list pyval;
  transit_link_types : list pyval;
  walk_link_types : list pyval
}.

(** ** Two-way links (lines 297-313) *)

Definition key (r : row) : Z * Z := (from_node_id r, to_node_id r).

(** The number of rows of a [(from_node_id, to_node_id)] group. *)
Definition group_size (l : list row) (k : Z * Z) : nat :=
  length (filter (fun r => key r = k) l).

(** The groups of two rows or more. *)
Definition two_way_nodes (l : list row) : list (Z * Z) :=
  filter (fun k => 2 <= group_size l k) (remove_dups (key <$> l)).

Definition by_link_id (a b : row) : Prop := (link_id a <= link_id b)%Z.

#[export] Instance by_link_id_dec a b : Decision (by_link_id a b).
Proof. unfold by_link_id. apply _. Defined.

(** [sort_values('link_id')]. *)
Definition sort_values (l : list row) : list row := merge_sort by_link_id l.

(** [drop_duplicates(subset=["from_node_id", "to_node_id"], keep='last')]. *)
Fixpoint drop_duplicates (l : list row) : list row :=
  match l with
  | [] => []
  | r :: rest =>
      if bool_decide (key r ∈ key <$> rest) then drop_duplicates rest
      else r :: drop_duplicates rest
  end.

(** [df.index[mask]] from position [i] on. *)
Fixpoint index_where (p : row -> bool) (i : nat) (l : list row) : list nat :=
  match l with
  | [] => []
  | r :: rest =>
      if p r then i :: index_where p (S i) rest else index_where p (S i) rest
  end.

(** The table after line 308 and [two_way_indices]. *)
Definition two_way (df : DataFrame) : DataFrame * list nat :=
  let df_two_way_count := two_way_nodes (rows df) in
  if bool_decide (0 < length df_two_way_count) then
    let two_way_nodes := df_two_way_count in
    let two_way_df := filter (fun r => key r ∈ two_way_nodes) (rows df) in
    let two_way_links := link_id <$> drop_duplicates (sort_values two_way_df) in
    let gmns_links_df := Frame (columns df) (drop_duplicates (sort_values (rows df))) in
    let two_way_indices :=
      index_where (fun r => bool_decide (link_id r ∈ two_way_links)) 0
        (rows gmns_links_df) in
    (gmns_links_df, two_way_indices)
  else (df, []).

(** ** Directions (lines 317-330) *)

(** Line 317-318: a table without a direction column gets one of ones. *)
Definition with_direction (ps : params) (df : DataFrame) : DataFrame :=
  if bool_decide (gmns_direction_field ps ∈ columns_to_list df) then df
  else set_column (gmns_direction_field ps) (VInt 1) df.

(** Lines 320-324: the direction column with the two-way rows at [0]. *)
Definition direction_two_way (ps : params) (df : DataFrame) (two_way_indices : list nat)
  : list pyval :=
  let direction := (fun r => get r (gmns_direction_field ps)) <$> rows df in
  foldl (fun direction idx => <[idx := VInt 0]> direction) direction two_way_indices.

(** Lines 328-330. *)
Definition normalise (direction : list pyval) : list pyval :=
  (fun i => if negb (py_in i [VInt 1; VInt 0; VInt (-1)]) then VInt 1 else i)
    <$> direction.

(** ** Speeds, capacities and lanes (lines 334-367) *)

(** The two lists of one attribute. *)
Record slots : Type := Slots { ab : list pyval; ba : list pyval }.

(** The body of the loop for one attribute. *)
Definition assign (df : DataFrame) (field : string) (direction : list pyval)
    (idx : nat) (r : row) (s : slots) : slots :=
  if bool_decide (field ∈ columns_to_list df) then
    let d := default VNone (direction !! idx) in
    if py_eq d (VInt 1) then Slots (<[idx := get r field]> (ab s)) (ba s)
    else if py_eq d (VInt (-1)) then Slots (ab s) (<[idx := get r field]> (ba s))
    else Slots (<[idx := get r field]> (ab s)) (<[idx := get r field]> (ba s))
  else s.

(** [for idx, row in df.iterrows(): body] from index [idx] on. *)
Fixpoint iterrows {S : Type} (body : nat -> row -> S -> S) (idx : nat) (l : list row)
    (s : S) : S :=
  match l with
  | [] => s
  | r :: rest => iterrows body (Datatypes.S idx) rest (body idx r s)
  end.

Definition empty_slots (n : nat) : slots :=
  Slots (replicate n (VStr "")) (replicate n (VStr "")).

Record attributes : Type := Attributes { speed : slots; capacity : slots; lanes : slots }.

Definition split (ps : params) (df : DataFrame) (direction : list pyval) : attributes :=
  let n := length (rows df) in
  iterrows (fun idx r a =>
      Attributes (assign df (gmns_speed_field ps) direction idx r (speed a))
                 (assign df (gmns_capacity_field ps) direction idx r (capacity a))
                 (assign df (gmns_lanes_field ps) direction idx r (lanes a)))
    0 (rows df)
    (Attributes (empty_slots n) (empty_slots n) (empty_slots n)).

(** ** Names and link types (lines 371-424) *)

(** Lines 371-374. *)
Definition name_list (ps : params) (df : DataFrame) : list pyval :=
  if bool_decide (gmns_name_field ps ∈ columns_to_list df)
  then (fun r => get r (gmns_name_field ps)) <$> rows df
  else (fun _ => VStr "") <$> rows df.

(** Lines 379-386: the column the link types are read from, if any, and
    the link type of every row. *)
Definition link_type_field (ps : params) (df : DataFrame) : string :=
  if bool_decide (gmns_link_type_field ps ∈ columns_to_list df)
  then gmns_link_type_field ps else "link_type_name".

Definition link_types_list (ps : params) (df : DataFrame) : list pyval :=
  let field := link_type_field ps df in
  if bool_decide (field ∈ columns_to_list df)
  then (fun r => get r field) <$> rows df
  else (fun _ => VStr "unclassified") <$> rows df.

(** [list(dict.fromkeys(l))]: the values of [l], each at its first place. *)
Fixpoint fromkeys (l : list pyval) : list pyval :=
  match l with
  | [] => []
  | x :: rest => x :: List.filter (fun y => negb (py_eq x y)) (fromkeys rest)
  end.

Definition lower (c : ascii) : ascii :=
  let n := nat_of_ascii c in
  if (65 <=? n) && (n <=? 90) then ascii_of_nat (n + 32) else c.

Definition upper (c : ascii) : ascii :=
  let n := nat_of_ascii c in
  if (97 <=? n) && (n <=? 122) then ascii_of_nat (n - 32) else c.

(** A string of one character. *)
Definition char (c : ascii) : string := String c EmptyString.

(** [string.ascii_letters]. *)
Definition ascii_letters : string :=
  "abcdefghijklmnopqrstuvwxyzABCDEFGHIJKLMNOPQRSTUVWXYZ".

(** Modelled from the spec: the LinkTypeRegistry ([LinkTypes], whose code
    is not part of the repository's files here) maps each code to the
    full type name; [all_types()] lists the codes, and [new(code)]
    followed by [save()] adds the entry of a code that is not in use. *)
Definition all_types (reg : gmap string string) (code : string) : bool :=
  bool_decide (is_Some (reg !! code)).

(** Modelled from the spec: [new(code)], [link_type = lt_name] and
    [save()] of the LinkTypeRegistry, which add the entry of [code]. *)
Definition new (reg : gmap string string) (code lt_name : string) : gmap string string :=
  <[code := lt_name]> reg.

(** Lines 393-407: the loop over the characters of the name, from [i] on. *)
Fixpoint try_characters (reg : gmap string string) (lt_name : string) (rest : list ascii)
  : option (gmap string string) :=
  match rest with
  | [] => None
  | c :: rest' =>
      if negb (all_types reg (char (lower c))) then Some (new reg (char (lower c)) lt_name)
      else if negb (all_types reg (char (upper c))) then Some (new reg (char (upper c)) lt_name)
      else try_characters reg lt_name rest'
  end.

(** Lines 409-424: the loop over [string.ascii_letters], from
    [ascii_idx] on; indexing past the last letter raises. *)
Fixpoint try_letters (reg : gmap string string) (lt_name : string) (rest : list ascii)
  : result (gmap string string) :=
  match rest with
  | [] => Raise (ValueError
      "Error during creation of new link_type: all letters are currently in use.")
  | ascii_lt :: rest' =>
      if negb (all_types reg (char ascii_lt)) then Ok (new reg (char ascii_lt) lt_name)
      else try_letters reg lt_name rest'
  end.

(** The body of the loop of line 390 for one name; [len] of a value that
    is not a string raises. *)
Definition add_link_type (reg : gmap string string) (lt_name : pyval)
  : result (gmap string string) :=
  match lt_name with
  | VStr lt_name =>
      match try_characters reg lt_name (list_ascii_of_string lt_name) with
      | Some reg' => Ok reg'
      | None => try_letters reg lt_name (list_ascii_of_string ascii_letters)
      end
  | _ => Raise TypeError
  end.

(** Lines 390-424. *)
Fixpoint add_link_types (reg : gmap string string) (names : list pyval)
  : result (gmap string string) :=
  match names with
  | [] => Ok reg
  | lt_name :: rest =>
      do reg' <- add_link_type reg lt_name ;
      add_link_types reg' rest
  end.

(** ** Modes (lines 428-483) *)

(** Lines 457-469, for one row whose mode string is still empty. *)
Definition mode_of_link_type (ps : params) (link_type : pyval) : string :=
  if py_in link_type (bike_link_types ps) then "b"
  else if py_in link_type (car_link_types ps) then "c"
  else if py_in link_type (transit_link_types ps) then "t"
  else if py_in link_type (walk_link_types ps) then "w"
  else "".

Definition gmns_bike_facilities : list pyval :=
  [VStr "wcl"; VStr "bikelane"; VStr "cycletrack"].
Definition gmns_ped_facilities : list pyval := [VStr "shoulder"; VStr "sidewalk"].

(** Lines 475-483, for one column, one letter and one row. *)
Definition add_facility (df : DataFrame) (field : string) (facilities : list pyval)
    (letter : string) (r : row) (modes : string) : string :=
  if bool_decide (field ∈ columns_to_list df) then
    if py_in (get r field) facilities && negb (str_contains letter modes)
    then (modes ++ letter)%string else modes
  else modes.

Section Modes.
(** Lines 435-447: the mode strings read from the modes column through
    [parameters["network"]["gmns"]["modes"]["gmns_users"]], which also
    fills the mode registry. *)
Variable modes_from_users : list row -> list string.

(** Lines 428-469. *)
Definition modes_list (ps : params) (df : DataFrame) : result (list string) :=
  if bool_decide (gmns_modes_field ps ∈ columns_to_list df) then
    Ok (modes_from_users (rows df))
  else
    let gmns_link_type_field := link_type_field ps df in
    if bool_decide (gmns_link_type_field = "link_type_name"%string)
       && negb (bool_decide (gmns_link_type_field ∈ columns_to_list df))
    then Raise (ValueError
      "GMNS table does not have information about modes or link types.")
    else Ok ((fun r => mode_of_link_type ps (get r gmns_link_type_field)) <$> rows df).

(** Lines 471-483. *)
Definition with_facilities (df : DataFrame) (modes_list : list string) : list string :=
  zip_with (fun r modes =>
      add_facility df "ped_facility" gmns_ped_facilities "w" r
        (add_facility df "bike_facility" gmns_bike_facilities "b" r modes))
    (rows df) modes_list.

(** ** The records handed to the store (lines 487-551) *)

Record aeq_link : Type := Link {
  l_link_id : pyval;
  l_a_node : pyval;
  l_b_node : pyval;
  l_direction : pyval;
  l_distance : pyval;
  l_modes : string;
  l_link_type : pyval;
  l_name : pyval;
  l_speed_ab : pyval;
  l_speed_ba : pyval;
  l_capacity_ab : pyval;
  l_capacity_ba : pyval;
  l_geometry : pyval;
  l_lanes_ab : pyval;
  l_lanes_ba : pyval;
  l_notes : string
}.

Record aeq_node : Type := Node {
  n_node_id : pyval;
  n_is_centroid : Z;
  n_x_coord : pyval;
  n_y_coord : pyval;
  n_notes : string
}.

(** The nodes table. *)
Record NodesFrame : Type :=
  NFrame { ncolumns : list string; nrows : list (gmap string pyval) }.

(** [df[field]] raises [KeyError] and [df.field] raises [AttributeError]
    when the table has no column [field]. *)
Definition column (columns : list string) (field : string) : result unit :=
  if bool_decide (field ∈ columns) then Ok tt else Raise (KeyError field).

Definition attribute (columns : list string) (field : string) : result unit :=
  if bool_decide (field ∈ columns) then Ok tt else Raise (AttributeError field).

(** A row of [aeq_nodes_df]. *)
Definition aeq_node_row (ps : params) (r : gmap string pyval) : aeq_node :=
  Node (default VNaN (r !! gmns_node_id_field ps)) 0
       (default VNaN (r !! "x_coord"%string))
       (default VNaN (r !! "y_coord"%string)) "from GMNS file".

(** Lines 487-493: the node id is read from the configured column, the
    coordinates from the columns [x_coord] and [y_coord]. *)
Definition aeq_nodes_df (ps : params) (nodes : NodesFrame) : result (list aeq_node) :=
  do _ <- column (ncolumns nodes) (gmns_node_id_field ps) ;
  do _ <- attribute (ncolumns nodes) "x_coord" ;
  do _ <- attribute (ncolumns nodes) "y_coord" ;
  Ok (aeq_node_row ps <$> nrows nodes).

(** Row [idx] of [aeq_links_df]. *)
Definition aeq_link_row (ps : params) (direction : list pyval) (modes_list : list string)
    (link_types_list name_list : list pyval) (a : attributes) (idx : nat) (r : row)
  : aeq_link :=
  let at_ (l : list pyval) := default VNaN (l !! idx) in
  Link (get r (gmns_link_id_field ps)) (get r (gmns_a_node_field ps))
       (get r (gmns_b_node_field ps))
       (at_ direction) (get r (gmns_distance_field ps))
       (default ""%string (modes_list !! idx)) (at_ link_types_list) (at_ name_list)
       (at_ (ab (speed a))) (at_ (ba (speed a)))
       (at_ (ab (capacity a))) (at_ (ba (capacity a)))
       (get r "geometry")
       (at_ (ab (lanes a))) (at_ (ba (lanes a))) "from GMNS file".

(** Lines 495-512: the link id and the two nodes are read from the
    configured columns, the geometry from the column [geometry]. *)
Definition aeq_links_df (ps : params) (df : DataFrame) (direction : list pyval)
    (modes_list : list string) (link_types_list name_list : list pyval) (a : attributes)
  : result (list aeq_link) :=
  do _ <- column (columns_to_list df) (gmns_link_id_field ps) ;
  do _ <- column (columns_to_list df) (gmns_a_node_field ps) ;
  do _ <- column (columns_to_list df) (gmns_b_node_field ps) ;
  do _ <- attribute (columns_to_list df) "geometry" ;
  Ok (imap (aeq_link_row ps direction modes_list link_types_list name_list a) (rows df)).

(** Lines 256-268: the required fields. *)
Fixpoint check_node_fields (fields : list string) (nodes : NodesFrame) : result unit :=
  match fields with
  | [] => Ok tt
  | field :: rest =>
      if bool_decide (field ∈ ncolumns nodes) then check_node_fields rest nodes
      else Raise (ValueError
        ("In GMNS nodes file: field '" ++ field ++ "' required, but not found."))
  end.

Fixpoint check_link_fields (fields : list string) (df : DataFrame) : result DataFrame :=
  match fields with
  | [] => Ok df
  | field :: rest =>
      if bool_decide (field ∈ columns_to_list df) then check_link_fields rest df
      else if bool_decide (field = "directed"%string)
           then check_link_fields rest (set_column field (VBool false) df)
           else Raise (ValueError
             ("In GMNS links file: field '" ++ field ++ "' required, but not found."))
  end.

(** What an import leaves: the link types, and the node and link records
    inserted. Lines 273-290, which add columns to the tables of the
    store, have no part in it. *)
Record imported : Type := Imported {
  link_types : gmap string string;
  nodes_inserted : list aeq_node;
  links_inserted : list aeq_link
}.

Definition create_from_gmns (ps : params) (gmns_links_df : DataFrame)
    (gmns_nodes_df : NodesFrame) (reg : gmap string string) : result imported :=
  do _ <- check_node_fields (required_node_fields ps) gmns_nodes_df ;
  do gmns_links_df <- check_link_fields (required_link_fields ps) gmns_links_df ;
  if negb (bool_decide (gmns_geometry_field ps ∈ columns_to_list gmns_links_df)) then
    Raise (ValueError
      "To create an aequilibrae links table, a 'geometry' field must be provided. Geometry field not found in GMNS links file.")
  else
    let gmns_links_df :=
      if bool_decide (gmns_distance_field ps ∈ columns_to_list gmns_links_df)
      then gmns_links_df
      else set_column (gmns_distance_field ps) VNone gmns_links_df in
    let '(gmns_links_df, two_way_indices) := two_way gmns_links_df in
    let gmns_links_df := with_direction ps gmns_links_df in
    let direction := normalise (direction_two_way ps gmns_links_df two_way_indices) in
    let attrs := split ps gmns_links_df direction in
    let names := name_list ps gmns_links_df in
    let types := link_types_list ps gmns_links_df in
    do reg' <- add_link_types reg (fromkeys types) ;
    do modes <- modes_list ps gmns_links_df ;
    let modes := with_facilities gmns_links_df modes in
    do aeq_nodes <- aeq_nodes_df ps gmns_nodes_df ;
    do aeq_links <- aeq_links_df ps gmns_links_df direction modes types names attrs ;
    Ok (Imported reg' aeq_nodes aeq_links).
End Modes.

(** ** Definitions used in the statements, and example tables *)

(** What the loop body writes into one slot. *)
Definition written_ab (d v old : pyval) : pyval :=
  if py_eq d (VInt 1) then v else if py_eq d (VInt (-1)) then old else v.

Definition written_ba (d v old : pyval) : pyval :=
  if py_eq d (VInt 1) then old else if py_eq d (VInt (-1)) then v else v.

(** The two slots of one attribute for row [i], whose direction is [d]
    and whose value of the attribute [v]. *)
Definition slots_of (present : bool) (d v : pyval) : pyval * pyval :=
  if present
  then (if py_in d [VInt 1; VInt 0] then v else VStr "",
        if py_in d [VInt (-1); VInt 0] then v else VStr "")
  else (VStr "", VStr "").

(** A code no link type has. *)
Definition free (reg : gmap string string) (code : string) : bool :=
  negb (all_types reg code).

(** The codes tried for a name, in the order they are tried: each
    character lower-cased, then upper-cased; then the ASCII letters. *)
Definition candidates (lt_name : string) : list string :=
  flat_map (fun c => [char (lower c); char (upper c)]) (list_ascii_of_string lt_name)
  ++ map char (list_ascii_of_string ascii_letters).

Definition all_in_use : exn :=
  ValueError "Error during creation of new link_type: all letters are currently in use.".

(** Two rows between the same nodes, and one row of its own group with a
    direction that is not a direction. *)
Definition example_row (id from to : Z) (dir : pyval) (type : string) : row :=
  Row id from to
    (list_to_map [("dir_flag"%string, dir); ("free_speed"%string, VInt 50);
                  ("facility_type"%string, VStr type);
                  ("geometry"%string, VStr "LINESTRING(0 0, 1 1)")]).

Definition example_links : DataFrame :=
  Frame ["dir_flag"; "free_speed"; "facility_type"; "geometry"]%string
    [example_row 10 1 2 (VInt 1) "Arterial"; example_row 12 3 4 (VInt 7) "track";
     example_row 11 1 2 (VInt 1) "Arterial"].


Definition example_params : params :=
  Params "link_id" "from_node_id" "to_node_id"
    "length" "dir_flag" "free_speed" "capacity" "lanes" "name" "facility_type"
    "allowed_uses" "geometry" "node_id" ["node_id"; "x_coord"; "y_coord"]%string
    ["link_id"; "from_node_id"; "to_node_id"; "directed"]%string
    [VStr "bikeway"] [VStr "Arterial"] [VStr "rail"] [VStr "footway"].

Definition example_nodes : NodesFrame :=
  NFrame ["node_id"; "x_coord"; "y_coord"]%string
    [list_to_map [("node_id"%string, VInt 1); ("x_coord"%string, VInt 0);
                  ("y_coord"%string, VInt 0)]].

Definition no_link_types : exn :=
  ValueError "GMNS table does not have information about modes or link types.".

(** The errors of lines 256-268. *)
Definition missing_link_field (field : string) : exn :=
  ValueError ("In GMNS links file: field '" ++ field ++ "' required, but not found.").

Definition missing_node_field (field : string) : exn :=
  ValueError ("In GMNS nodes file: field '" ++ field ++ "' required, but not found.").

Definition missing_geometry : exn :=
  ValueError "To create an aequilibrae links table, a 'geometry' field must be provided. Geometry field not found in GMNS links file.".

(** ** Groups and duplicates *)

#[export] Instance by_link_id_trans : Transitive by_link_id.
Proof. unfold by_link_id. intros a b c. lia. Qed.

#[export] Instance by_link_id_total : Total by_link_id.
Proof. unfold by_link_id. intros a b. lia. Qed.

Lemma elem_of_sort_values l r : r ∈ sort_values l <-> r ∈ l.
Proof. unfold sort_values. now rewrite merge_sort_Permutation. Qed.

Lemma sort_values_sorted l : StronglySorted by_link_id (sort_values l).
Proof. apply StronglySorted_merge_sort; apply _. Qed.

Lemma group_size_cons r l k :
  group_size (r :: l) k = ((if decide (key r = k) then 1 else 0) + group_size l k)%nat.
Proof.
  unfold group_size. rewrite filter_cons. destruct (decide (key r = k)); reflexivity.
Qed.

Lemma group_size_pos l k : 0 < group_size l k <-> k ∈ key <$> l.
Proof.
  induction l as [|r l IH].
  - unfold group_size; simpl. rewrite elem_of_nil. lia.
  - rewrite group_size_cons, fmap_cons, elem_of_cons, <- IH.
    destruct (decide (key r = k)); split; intros; try lia; intuition congruence.
Qed.

Lemma group_size_sort_values l k : group_size (sort_values l) k = group_size l k.
Proof.
  unfold group_size, sort_values. now rewrite merge_sort_Permutation.
Qed.


Lemma elem_of_two_way_nodes l k : k ∈ two_way_nodes l <-> 2 <= group_size l k.
Proof.
  unfold two_way_nodes. rewrite list_elem_of_filter, elem_of_remove_dups.
  split; [tauto|]. intros H. split; [assumption|]. apply group_size_pos. lia.
Qed.

Lemma NoDup_key_small l : (forall k, group_size l k < 2) -> NoDup (key <$> l).
Proof.
  induction l as [|r l IH]; intros H; [constructor|].
  rewrite fmap_cons. apply NoDup_cons. split.
  - intros Hin. apply group_size_pos in Hin.
    specialize (H (key r)). rewrite group_size_cons in H.
    destruct (decide (key r = key r)); [lia | congruence].
  - apply IH. intros k. specialize (H k). rewrite group_size_cons in H. lia.
Qed.

Lemma drop_duplicates_subseteq l r : r ∈ drop_duplicates l -> r ∈ l.
Proof.
  induction l as [|x l IH]; simpl; [trivial|].
  case_bool_decide; rewrite ?elem_of_cons; intuition.
Qed.

Lemma key_drop_duplicates l k : k ∈ key <$> l -> k ∈ key <$> drop_duplicates l.
Proof.
  induction l as [|x l IH]; simpl; [trivial|].
  rewrite elem_of_cons. case_bool_decide as Hx.
  - intros [->|H]; auto.
  - rewrite fmap_cons, elem_of_cons. intros [->|H]; auto.
Qed.

Lemma NoDup_key_drop_duplicates l : NoDup (key <$> drop_duplicates l).
Proof.
  induction l as [|x l IH]; simpl; [constructor|].
  case_bool_decide as Hx; [assumption|].
  rewrite fmap_cons. apply NoDup_cons. split; [|assumption].
  intros Hin. apply Hx. apply list_elem_of_fmap in Hin.
  destruct Hin as (y & Hy & Hin). apply list_elem_of_fmap.
  exists y. split; [assumption|]. now apply drop_duplicates_subseteq.
Qed.

(** In a table sorted by [link_id], the row kept of a group is the one
    with the highest [link_id]. *)
Lemma drop_duplicates_last l x y :
  StronglySorted by_link_id l -> x ∈ drop_duplicates l -> y ∈ l -> key y = key x ->
  (link_id y <= link_id x)%Z.
Proof.
  induction l as [|r l IH]; simpl; intros Hs Hx Hy Hk.
  - now apply elem_of_nil in Hx.
  - apply StronglySorted_inv in Hs. destruct Hs as [Hs Hr].
    rewrite Forall_forall in Hr.
    apply elem_of_cons in Hy.
    case_bool_decide as Hd.
    + destruct Hy as [->|Hy]; [|now apply IH].
      apply Hr. now apply drop_duplicates_subseteq.
    + apply elem_of_cons in Hx. destruct Hx as [->|Hx].
      * destruct Hy as [->|Hy]; [lia|].
        exfalso. apply Hd. apply list_elem_of_fmap. exists y. split; [congruence|assumption].
      * destruct Hy as [->|Hy]; [|now apply IH].
        apply Hr. now apply drop_duplicates_subseteq.
Qed.

Lemma drop_duplicates_keeps l r :
  r ∈ l -> (forall r', r' ∈ l -> key r' = key r -> r' = r) -> r ∈ drop_duplicates l.
Proof.
  induction l as [|x l IH]; simpl; intros Hr Hu; [assumption|].
  assert (Hu' : forall r', r' ∈ l -> key r' = key r -> r' = r).
  { intros r' H. apply Hu. now apply list_elem_of_further. }
  apply elem_of_cons in Hr.
  case_bool_decide as Hd.
  - destruct Hr as [->|Hr]; [|now apply IH].
    apply list_elem_of_fmap in Hd. destruct Hd as (y & Hy & Hin).
    assert (y = x) as -> by (apply Hu'; [assumption | congruence]).
    now apply IH.
  - apply elem_of_cons. destruct Hr as [->|Hr]; [now left | right; now apply IH].
Qed.

Lemma elem_of_index_where p i l n :
  n ∈ index_where p i l <-> exists r, i <= n /\ l !! (n - i) = Some r /\ p r = true.
Proof.
  revert i. induction l as [|x l IH]; intros i; simpl.
  - rewrite elem_of_nil. split; [tauto|]. intros (r & _ & H & _). discriminate.
  - assert (Hstep : (exists r, S i <= n /\ l !! (n - S i) = Some r /\ p r = true) <->
                    (exists r, i < n /\ (x :: l) !! (n - i) = Some r /\ p r = true)).
    { split; intros (r & Hle & Hl & Hp); exists r; (split; [lia|]); split; try assumption.
      - replace (n - i) with (S (n - S i)) by lia. exact Hl.
      - replace (n - i) with (S (n - S i)) in Hl by lia. exact Hl. }
    destruct (p x) eqn:Hpx.
    + rewrite elem_of_cons, IH, Hstep. split.
      * intros [->|(r & Hle & Hl & Hp)].
        -- exists x. rewrite Nat.sub_diag. auto.
        -- exists r. split; [lia | auto].
      * intros (r & Hle & Hl & Hp).
        destruct (decide (n = i)) as [->|Hne]; [now left|].
        right. exists r. split; [lia | auto].
    + rewrite IH, Hstep. split.
      * intros (r & Hle & Hl & Hp). exists r. split; [lia | auto].
      * intros (r & Hle & Hl & Hp).
        destruct (decide (n = i)) as [->|Hne].
        -- rewrite Nat.sub_diag in Hl. simpl in Hl. congruence.
        -- exists r. split; [lia | auto].
Qed.

Lemma lookup_assign_all (d : list pyval) (idxs : list nat) v i :
  foldl (fun d idx => <[idx := v]> d) d idxs !! i =
  if decide (i ∈ idxs) then (fun _ => v) <$> d !! i else d !! i.
Proof.
  revert d. induction idxs as [|j idxs IH]; intros d; simpl.
  - destruct (decide (i ∈ [])) as [H|_]; [now apply elem_of_nil in H | reflexivity].
  - rewrite IH. destruct (decide (i = j)) as [->|Hne].
    + destruct (decide (j ∈ j :: idxs)) as [_|H]; [|exfalso; apply H; left].
      destruct (lt_dec j (length d)) as [Hlt|Hge].
      * rewrite list_lookup_insert_eq by assumption.
        destruct (lookup_lt_is_Some_2 d j Hlt) as [x ->].
        destruct (decide (j ∈ idxs)); reflexivity.
      * rewrite list_insert_ge by lia.
        rewrite (lookup_ge_None_2 d j) by lia. destruct (decide (j ∈ idxs)); reflexivity.
    + rewrite list_lookup_insert_ne by congruence.
      destruct (decide (i ∈ idxs)) as [H|H];
        destruct (decide (i ∈ j :: idxs)) as [H'|H']; try reflexivity.
      * exfalso. apply H'. now right.
      * exfalso. apply elem_of_cons in H'. destruct H'; [congruence | contradiction].
Qed.

Lemma length_assign_all (d : list pyval) (idxs : list nat) v :
  length (foldl (fun d idx => <[idx := v]> d) d idxs) = length d.
Proof.
  revert d. induction idxs as [|j idxs IH]; intros d; simpl; [reflexivity|].
  now rewrite IH, length_insert.
Qed.

Lemma lookup_same_key l i j a b :
  NoDup (key <$> l) -> l !! i = Some a -> l !! j = Some b -> key a = key b -> i = j.
Proof.
  intros Hnd Hi Hj Hk. apply (NoDup_lookup (key <$> l) i j (key a)); [assumption| |].
  - now rewrite list_lookup_fmap, Hi.
  - now rewrite list_lookup_fmap, Hj, Hk.
Qed.

Lemma same_link_id l a b :
  NoDup (link_id <$> l) -> a ∈ l -> b ∈ l -> link_id a = link_id b -> a = b.
Proof.
  intros Hnd Ha Hb Hid.
  apply list_elem_of_lookup in Ha, Hb. destruct Ha as [i Hi], Hb as [j Hj].
  assert (i = j).
  { apply (NoDup_lookup (link_id <$> l) i j (link_id a)); [assumption| |].
    - now rewrite list_lookup_fmap, Hi.
    - now rewrite list_lookup_fmap, Hj, Hid. }
  subst j. congruence.
Qed.

(** ** Two-way links *)

(** What line 297-313 leave: one row of every group, the one with the
    highest [link_id], and the positions of the rows kept of the groups
    of two rows or more. *)
Lemma two_way_props df :
  let df' := (two_way df).1 in
  let idxs := (two_way df).2 in
  columns df' = columns df /\
  (forall r, r ∈ rows df' -> r ∈ rows df) /\
  NoDup (key <$> rows df') /\
  (forall x y, x ∈ rows df' -> y ∈ rows df -> key y = key x ->
     (link_id y <= link_id x)%Z) /\
  (forall r, r ∈ rows df -> (forall r', r' ∈ rows df -> key r' = key r -> r' = r) ->
     r ∈ rows df') /\
  (forall k, k ∈ key <$> rows df -> k ∈ key <$> rows df') /\
  (forall i r, rows df' !! i = Some r -> 2 <= group_size (rows df) (key r) -> i ∈ idxs) /\
  (NoDup (link_id <$> rows df) ->
   forall i r, i ∈ idxs -> rows df' !! i = Some r -> 2 <= group_size (rows df) (key r)).
Proof.
  unfold two_way. case_bool_decide as Hany; cbn [fst snd rows columns].
  - split; [reflexivity|].
    split. { intros r Hr. apply drop_duplicates_subseteq in Hr. now rewrite elem_of_sort_values in Hr. }
    split. { apply NoDup_key_drop_duplicates. }
    split.
    { intros x y Hx Hy Hk. apply (drop_duplicates_last (sort_values (rows df))); try assumption.
      - apply sort_values_sorted.
      - now apply elem_of_sort_values. }
    split.
    { intros r Hr Hu. apply drop_duplicates_keeps.
      - now apply elem_of_sort_values.
      - intros r' Hr'. apply Hu. now rewrite elem_of_sort_values in Hr'. }
    split.
    { intros k Hk. apply key_drop_duplicates.
      apply list_elem_of_fmap in Hk. destruct Hk as (y & -> & Hy).
      apply list_elem_of_fmap. exists y. split; [reflexivity|]. now apply elem_of_sort_values. }
    set (two_way_df := filter (fun r => key r ∈ two_way_nodes (rows df)) (rows df)).
    split.
    + intros i r Hi Hg. apply elem_of_index_where. exists r.
      split; [lia|]. rewrite Nat.sub_0_r. split; [assumption|].
      apply bool_decide_eq_true.
      assert (Hr : r ∈ rows df).
      { apply list_elem_of_lookup_2 in Hi. apply drop_duplicates_subseteq in Hi.
        now rewrite elem_of_sort_values in Hi. }
      assert (Hr2 : r ∈ sort_values two_way_df).
      { apply elem_of_sort_values. apply list_elem_of_filter.
        split; [now apply elem_of_two_way_nodes | assumption]. }
      assert (Hk : key r ∈ key <$> drop_duplicates (sort_values two_way_df)).
      { apply key_drop_duplicates. apply list_elem_of_fmap. eauto. }
      apply list_elem_of_fmap in Hk. destruct Hk as (r2 & Hk2 & Hin2).
      assert (Hr2' : r2 ∈ rows df).
      { apply drop_duplicates_subseteq in Hin2.
        rewrite elem_of_sort_values in Hin2. apply list_elem_of_filter in Hin2. tauto. }
      assert (H1 : (link_id r2 <= link_id r)%Z).
      { apply (drop_duplicates_last (sort_values (rows df))).
        - apply sort_values_sorted.
        - now apply list_elem_of_lookup_2 in Hi.
        - now apply elem_of_sort_values.
        - congruence. }
      assert (H2 : (link_id r <= link_id r2)%Z).
      { apply (drop_duplicates_last (sort_values two_way_df)).
        - apply sort_values_sorted.
        - assumption.
        - assumption.
        - assumption. }
      apply list_elem_of_fmap. exists r2. split; [lia | assumption].
    + intros Hnd i r Hi Hl. apply elem_of_index_where in Hi.
      destruct Hi as (r' & _ & Hl' & Hp). rewrite Nat.sub_0_r in Hl'.
      assert (r' = r) as -> by congruence.
      apply bool_decide_eq_true in Hp. apply list_elem_of_fmap in Hp.
      destruct Hp as (r2 & Hid & Hin2).
      apply drop_duplicates_subseteq in Hin2.
      rewrite elem_of_sort_values in Hin2. apply list_elem_of_filter in Hin2.
      destruct Hin2 as [Hn Hin2].
      assert (Hr : r ∈ rows df).
      { apply list_elem_of_lookup_2 in Hl. apply drop_duplicates_subseteq in Hl.
        now rewrite elem_of_sort_values in Hl. }
      assert (r = r2) as -> by (apply (same_link_id (rows df)); assumption).
      now apply elem_of_two_way_nodes.
  - assert (Hsmall : forall k, group_size (rows df) k < 2).
    { intros k. destruct (le_lt_dec 2 (group_size (rows df) k)) as [H|H]; [|assumption].
      exfalso. apply Hany. apply elem_of_two_way_nodes in H.
      destruct (two_way_nodes (rows df)); [now apply elem_of_nil in H | simpl; lia]. }
    pose proof (NoDup_key_small _ Hsmall) as Hnd.
    split; [reflexivity|]. split; [trivial|]. split; [assumption|].
    split.
    { intros x y Hx Hy Hk. apply list_elem_of_lookup in Hx, Hy.
      destruct Hx as [i Hi], Hy as [j Hj].
      assert (j = i) by (apply (lookup_same_key (rows df) j i y x); assumption).
      subst j. assert (x = y) by congruence. subst. lia. }
    split; [trivial|]. split; [trivial|]. split.
    + intros i r _ Hg. specialize (Hsmall (key r)). lia.
    + intros _ i r Hi. now apply elem_of_nil in Hi.
Qed.

Lemma get_set_column field v r :
  field <> "link_id"%string -> field <> "from_node_id"%string ->
  field <> "to_node_id"%string ->
  get (Row (link_id r) (from_node_id r) (to_node_id r) (<[field := v]> (cells r))) field = v.
Proof.
  intros H1 H2 H3. unfold get. rewrite !bool_decide_eq_false_2 by assumption.
  simpl. now rewrite lookup_insert_eq.
Qed.

(** The direction column read at line 320. *)
Lemma direction_column ps df i :
  ((fun r => get r (gmns_direction_field ps)) <$> rows (with_direction ps df)) !! i =
  (fun r => if bool_decide (gmns_direction_field ps ∈ columns_to_list df)
            then get r (gmns_direction_field ps) else VInt 1) <$> rows df !! i.
Proof.
  unfold with_direction. case_bool_decide as Hc.
  - now rewrite list_lookup_fmap.
  - unfold set_column; simpl. rewrite !list_lookup_fmap.
    destruct (rows df !! i) as [r|]; [simpl|reflexivity].
    f_equal. apply get_set_column; intros E; apply Hc; rewrite E;
      unfold columns_to_list; simpl; rewrite !elem_of_cons; tauto.
Qed.

Lemma lookup_direction_two_way ps df idxs i :
  direction_two_way ps (with_direction ps df) idxs !! i =
  (fun r => if decide (i ∈ idxs) then VInt 0
            else if bool_decide (gmns_direction_field ps ∈ columns_to_list df)
                 then get r (gmns_direction_field ps) else VInt 1) <$> rows df !! i.
Proof.
  unfold direction_two_way. rewrite lookup_assign_all, direction_column.
  destruct (decide (i ∈ idxs)); destruct (rows df !! i); reflexivity.
Qed.




(** ** Directions *)

(** C5: every direction of the list handed to the store is [1], [0] or
    [-1]; a row marked two-way has [0]; any other row has the value of its
    direction column when that is [1], [0] or [-1], and [1] otherwise, also
    when the table has no direction column. *)
Theorem direction_normalised ps df two_way_indices :
  let direction :=
    normalise (direction_two_way ps (with_direction ps df) two_way_indices) in
  length direction = length (rows df) /\
  forall i r, rows df !! i = Some r ->
    exists d, direction !! i = Some d /\
      py_in d [VInt 1; VInt 0; VInt (-1)] = true /\
      (i ∈ two_way_indices -> d = VInt 0) /\
      (i ∉ two_way_indices ->
       let source := get r (gmns_direction_field ps) in
       (gmns_direction_field ps ∉ columns_to_list df -> d = VInt 1) /\
       (gmns_direction_field ps ∈ columns_to_list df ->
        d = if py_in source [VInt 1; VInt 0; VInt (-1)] then source else VInt 1)).
Proof.
  intros direction. split.
  - subst direction. unfold normalise, direction_two_way.
    rewrite length_fmap, length_assign_all, length_fmap.
    unfold with_direction. case_bool_decide; [reflexivity|].
    unfold set_column; simpl. now rewrite length_fmap.
  - intros i r Hi. subst direction. unfold normalise.
    rewrite list_lookup_fmap, lookup_direction_two_way, Hi. simpl.
    eexists. split; [reflexivity|].
    destruct (decide (i ∈ two_way_indices)) as [Hin|Hout].
    + split; [reflexivity|]. split; [reflexivity|]. contradiction.
    + case_bool_decide as Hc.
      * destruct (py_in (get r (gmns_direction_field ps)) [VInt 1; VInt 0; VInt (-1)]) eqn:E;
          simpl; (split; [assumption || reflexivity|]); (split; [contradiction|]);
          intros _; (split; [contradiction | intros _; reflexivity]).
      * split; [reflexivity|]. split; [contradiction|].
        intros _. split; [reflexivity | contradiction].
Qed.

(** ** Speeds, capacities and lanes *)

(** The three attributes do not meet in the loop. *)
Lemma iterrows_attributes (f g h : nat -> row -> slots -> slots) idx l a :
  iterrows (fun idx r a =>
      Attributes (f idx r (speed a)) (g idx r (capacity a)) (h idx r (lanes a))) idx l a =
  Attributes (iterrows f idx l (speed a)) (iterrows g idx l (capacity a))
             (iterrows h idx l (lanes a)).
Proof.
  revert idx a. induction l as [|r l IH]; intros idx a; simpl.
  - now destruct a.
  - now rewrite IH.
Qed.

Lemma lookup_insert_same {A} (l : list A) i v :
  <[i := v]> l !! i = (fun _ => v) <$> l !! i.
Proof.
  destruct (lt_dec i (length l)) as [Hlt|Hge].
  - rewrite list_lookup_insert_eq by assumption.
    now destruct (lookup_lt_is_Some_2 l i Hlt) as [x ->].
  - rewrite list_insert_ge by lia. now rewrite (lookup_ge_None_2 l i) by lia.
Qed.

Lemma lookup_assign df field direction idx r s i :
  field ∈ columns_to_list df ->
  ab (assign df field direction idx r s) !! i =
    (if decide (i = idx)
     then written_ab (default VNone (direction !! idx)) (get r field) <$> ab s !! i
     else ab s !! i) /\
  ba (assign df field direction idx r s) !! i =
    (if decide (i = idx)
     then written_ba (default VNone (direction !! idx)) (get r field) <$> ba s !! i
     else ba s !! i).
Proof.
  intros Hc. unfold assign, written_ab, written_ba.
  rewrite bool_decide_eq_true_2 by assumption.
  destruct (decide (i = idx)) as [->|Hne].
  - destruct (py_eq _ (VInt 1)); [|destruct (py_eq _ (VInt (-1)))]; simpl;
      rewrite ?lookup_insert_same; destruct (ab s !! idx); destruct (ba s !! idx);
      split; reflexivity.
  - destruct (py_eq _ (VInt 1)); [|destruct (py_eq _ (VInt (-1)))]; simpl;
      rewrite ?list_lookup_insert_ne by congruence; split; reflexivity.
Qed.

Lemma assign_absent df field direction idx r s :
  field ∉ columns_to_list df -> assign df field direction idx r s = s.
Proof. intros Hc. unfold assign. now rewrite bool_decide_eq_false_2. Qed.

(** The slots of one attribute after the loop over the rows from [idx]. *)
Lemma lookup_iterrows_assign df field direction l idx s i :
  field ∈ columns_to_list df ->
  let row_at := if decide (idx <= i) then l !! (i - idx) else None in
  ab (iterrows (assign df field direction) idx l s) !! i =
    match row_at with
    | Some r => written_ab (default VNone (direction !! i)) (get r field) <$> ab s !! i
    | None => ab s !! i
    end /\
  ba (iterrows (assign df field direction) idx l s) !! i =
    match row_at with
    | Some r => written_ba (default VNone (direction !! i)) (get r field) <$> ba s !! i
    | None => ba s !! i
    end.
Proof.
  intros Hc. revert idx s. induction l as [|r l IH]; intros idx s; simpl.
  - destruct (decide (idx <= i)); rewrite ?lookup_nil; split; reflexivity.
  - specialize (IH (S idx) (assign df field direction idx r s)). simpl in IH.
    destruct IH as [IHa IHb]. rewrite IHa, IHb.
    destruct (lookup_assign df field direction idx r s i Hc) as [Ha Hb].
    rewrite Ha, Hb.
    destruct (decide (S idx <= i)) as [Hlt|Hge];
      destruct (decide (idx <= i)) as [Hle|Hgt];
      destruct (decide (i = idx)) as [->|Hne]; try lia.
    + replace (i - idx) with (S (i - S idx)) by lia. simpl. split; reflexivity.
    + rewrite Nat.sub_diag. simpl. split; reflexivity.
    + split; reflexivity.
Qed.

Lemma iterrows_assign_absent df field direction l idx s :
  field ∉ columns_to_list df -> iterrows (assign df field direction) idx l s = s.
Proof.
  intros Hc. revert idx s. induction l as [|r l IH]; intros idx s; simpl; [reflexivity|].
  now rewrite assign_absent, IH.
Qed.

Lemma normalise_elem raw i d :
  normalise raw !! i = Some d -> py_in d [VInt 1; VInt 0; VInt (-1)] = true.
Proof.
  unfold normalise. rewrite list_lookup_fmap.
  destruct (raw !! i) as [x|]; [simpl|discriminate].
  intros [= <-].
  destruct (py_in x [VInt 1; VInt 0; VInt (-1)]) eqn:E; simpl; [assumption | reflexivity].
Qed.

Lemma py_eq_int_unique d (a b : Z) :
  py_eq d (VInt a) = true -> py_eq d (VInt b) = true -> a = b.
Proof.
  destruct d as [z|q| |c|s0|]; cbn [py_eq num]; try discriminate;
    intros E1 E2; apply Qeq_bool_iff in E1, E2; apply inject_Z_injective;
    rewrite <- E1, <- E2; reflexivity.
Qed.

Lemma written_slots d v :
  py_in d [VInt 1; VInt 0; VInt (-1)] = true ->
  (written_ab d v (VStr ""), written_ba d v (VStr "")) = slots_of true d v.
Proof.
  unfold written_ab, written_ba, slots_of, py_in. cbn [existsb].
  pose proof (py_eq_int_unique d 1 0) as H10.
  pose proof (py_eq_int_unique d 1 (-1)) as H1m.
  pose proof (py_eq_int_unique d 0 (-1)) as H0m.
  destruct (py_eq d (VInt 1)); destruct (py_eq d (VInt 0));
    destruct (py_eq d (VInt (-1))); simpl; try reflexivity; try discriminate;
    try (now specialize (H10 eq_refl eq_refl));
    try (now specialize (H1m eq_refl eq_refl));
    try (now specialize (H0m eq_refl eq_refl)).
Qed.

Lemma lookup_split_slots df field direction i r d :
  rows df !! i = Some r -> direction !! i = Some d ->
  py_in d [VInt 1; VInt 0; VInt (-1)] = true ->
  let s := iterrows (assign df field direction) 0 (rows df)
             (empty_slots (length (rows df))) in
  (default VNaN (ab s !! i), default VNaN (ba s !! i)) =
  slots_of (bool_decide (field ∈ columns_to_list df)) d (get r field) /\
  is_Some (ab s !! i) /\ is_Some (ba s !! i).
Proof.
  intros Hr Hd Hin s.
  assert (Hi : i < length (rows df)) by now apply lookup_lt_Some in Hr.
  assert (He : replicate (length (rows df)) (VStr "") !! i = Some (VStr "")).
  { now apply lookup_replicate_2. }
  case_bool_decide as Hc.
  - destruct (lookup_iterrows_assign df field direction (rows df) 0
                (empty_slots (length (rows df))) i Hc) as [Ha Hb].
    fold s in Ha, Hb. rewrite decide_True, Nat.sub_0_r, Hr in Ha, Hb by lia.
    rewrite Ha, Hb, Hd. simpl. rewrite He. simpl.
    split; [now apply written_slots | split; eauto].
  - subst s. rewrite iterrows_assign_absent by assumption. simpl. rewrite He. simpl.
    split; [reflexivity | split; eauto].
Qed.

(** C6: for each of speed, capacity and lanes, when the table has the
    column the [_ab] slot of a row holds the value of the column if the
    direction of the row is [1] or [0] and the empty string otherwise, the
    [_ba] slot holds it if the direction is [-1] or [0] and the empty
    string otherwise; when the table lacks the column both slots hold the
    empty string. *)
Theorem split_by_direction ps df raw i r d :
  let direction := normalise raw in
  let a := split ps df direction in
  rows df !! i = Some r -> direction !! i = Some d ->
  (ab (speed a) !! i, ba (speed a) !! i) =
    (let '(x, y) := slots_of (bool_decide (gmns_speed_field ps ∈ columns_to_list df))
                      d (get r (gmns_speed_field ps)) in (Some x, Some y)) /\
  (ab (capacity a) !! i, ba (capacity a) !! i) =
    (let '(x, y) := slots_of (bool_decide (gmns_capacity_field ps ∈ columns_to_list df))
                      d (get r (gmns_capacity_field ps)) in (Some x, Some y)) /\
  (ab (lanes a) !! i, ba (lanes a) !! i) =
    (let '(x, y) := slots_of (bool_decide (gmns_lanes_field ps ∈ columns_to_list df))
                      d (get r (gmns_lanes_field ps)) in (Some x, Some y)).
Proof.
  intros direction a Hr Hd.
  assert (Hin : py_in d [VInt 1; VInt 0; VInt (-1)] = true)
    by now apply (normalise_elem raw i).
  subst a. unfold split. rewrite iterrows_attributes. simpl.
  repeat split.
  - destruct (lookup_split_slots df (gmns_speed_field ps) direction i r d
                Hr Hd Hin) as (E & [x Hx] & [y Hy]).
    rewrite Hx, Hy in E |- *. simpl in E.
    destruct (slots_of _ _ _). now injection E as -> ->.
  - destruct (lookup_split_slots df (gmns_capacity_field ps) direction i r d
                Hr Hd Hin) as (E & [x Hx] & [y Hy]).
    rewrite Hx, Hy in E |- *. simpl in E.
    destruct (slots_of _ _ _). now injection E as -> ->.
  - destruct (lookup_split_slots df (gmns_lanes_field ps) direction i r d
                Hr Hd Hin) as (E & [x Hx] & [y Hy]).
    rewrite Hx, Hy in E |- *. simpl in E.
    destruct (slots_of _ _ _). now injection E as -> ->.
Qed.

Lemma split_by_direction_witness :
  let df := with_direction example_params (two_way example_links).1 in
  let raw := direction_two_way example_params df (two_way example_links).2 in
  let a := split example_params df (normalise raw) in
  (ab (speed a) !! 1, ba (speed a) !! 1) = (Some (VInt 50), Some (VStr "")).
Proof.
  exact (proj1 (split_by_direction example_params
                  (with_direction example_params (two_way example_links).1)
                  (direction_two_way example_params
                     (with_direction example_params (two_way example_links).1)
                     (two_way example_links).2)
                  1 (example_row 12 3 4 (VInt 7) "track") (VInt 1) eq_refl eq_refl)).
Defined.

(** ** Link types *)

Lemma find_app_or {A} (f : A -> bool) l1 l2 :
  List.find f (l1 ++ l2) =
  match List.find f l1 with Some x => Some x | None => List.find f l2 end.
Proof.
  induction l1 as [|x l1 IH]; simpl; [reflexivity|]. now destruct (f x).
Qed.

Lemma try_characters_find reg lt_name l :
  try_characters reg lt_name l =
  (fun code => new reg code lt_name) <$>
    List.find (free reg) (flat_map (fun c => [char (lower c); char (upper c)]) l).
Proof.
  induction l as [|c l IH]; simpl; [reflexivity|]. unfold free at 1 2.
  destruct (negb (all_types reg (char (lower c)))); [reflexivity|].
  destruct (negb (all_types reg (char (upper c)))); [reflexivity|]. exact IH.
Qed.

Lemma try_letters_find reg lt_name l :
  try_letters reg lt_name l =
  match List.find (free reg) (map char l) with
  | Some code => Ok (new reg code lt_name)
  | None => Raise all_in_use
  end.
Proof.
  induction l as [|c l IH]; simpl; [reflexivity|]. unfold free at 1.
  destruct (negb (all_types reg (char c))); [reflexivity | exact IH].
Qed.

Lemma add_link_type_find reg lt_name :
  add_link_type reg (VStr lt_name) =
  match List.find (free reg) (candidates lt_name) with
  | Some code => Ok (<[code := lt_name]> reg)
  | None => Raise all_in_use
  end.
Proof.
  unfold add_link_type, candidates.
  rewrite try_characters_find, try_letters_find, find_app_or.
  now destruct (List.find (free reg) (flat_map _ _)).
Qed.

Lemma free_lookup reg code : free reg code = true <-> reg !! code = None.
Proof.
  unfold free, all_types. rewrite negb_true_iff, bool_decide_eq_false.
  rewrite <- eq_None_not_Some. reflexivity.
Qed.

Lemma add_link_type_fresh reg lt_name reg' :
  add_link_type reg lt_name = Ok reg' ->
  exists name code, lt_name = VStr name /\ reg !! code = None /\
    reg' = <[code := name]> reg /\ size reg' = S (size reg).
Proof.
  destruct lt_name as [| | | |name|]; try discriminate.
  rewrite add_link_type_find.
  destruct (List.find (free reg) (candidates name)) as [code|] eqn:E; [|discriminate].
  intros [= <-]. apply find_some in E. destruct E as [_ E]. apply free_lookup in E.
  exists name, code. repeat split; try assumption. now apply map_size_insert_None.
Qed.

Lemma add_link_types_size names : forall reg reg',
  add_link_types reg names = Ok reg' ->
  size reg' = size reg + length names /\ reg ⊆ reg'.
Proof.
  induction names as [|x names IH]; intros reg reg'; simpl.
  - intros [= <-]. split; [lia | reflexivity].
  - destruct (add_link_type reg x) as [reg1|] eqn:E; [simpl|discriminate].
    intros H. apply IH in H. destruct H as [Hs Hsub].
    apply add_link_type_fresh in E. destruct E as (name & code & -> & Hn & -> & Hs1).
    split; [lia|]. etransitivity; [|exact Hsub]. now apply insert_subseteq.
Qed.

(** The names the loop of line 390 runs over: every name of the column,
    once. *)
Lemma fromkeys_names names :
  NoDup (fromkeys (VStr <$> names)) /\
  forall v, v ∈ fromkeys (VStr <$> names) <-> exists n, v = VStr n /\ n ∈ names.
Proof.
  induction names as [|n names [IHn IHm]]; simpl.
  - split; [constructor|]. intros v. rewrite elem_of_nil. split; [tauto|].
    intros (n & _ & H). now apply elem_of_nil in H.
  - assert (Hf : forall v, v ∈ List.filter (fun y => negb (py_eq (VStr n) y))
                                  (fromkeys (VStr <$> names)) <->
                           exists m, v = VStr m /\ m ∈ names /\ m <> n).
    { intros v. rewrite list_elem_of_In, filter_In, <- list_elem_of_In, IHm. split.
      - intros ((m & -> & Hm) & Hne). exists m. repeat split; try assumption.
        intros ->. cbn [py_eq num] in Hne. now rewrite bool_decide_eq_true_2 in Hne.
      - intros (m & -> & Hm & Hne). split; [eauto|].
        cbn [py_eq num]. rewrite bool_decide_eq_false_2; [reflexivity | congruence]. }
    split.
    + apply NoDup_cons. split.
      * rewrite Hf. intros (m & [= <-] & _ & Hne). congruence.
      * apply NoDup_ListNoDup, List.NoDup_filter, NoDup_ListNoDup, IHn.
    + intros v. rewrite elem_of_cons, Hf. split.
      * intros [->|(m & -> & Hm & _)]; [exists n | exists m];
          (split; [reflexivity|]); [left | now right].
      * intros (m & -> & Hm). apply elem_of_cons in Hm.
        destruct (decide (m = n)) as [->|Hne]; [now left | right].
        exists m. repeat split; [|assumption]. destruct Hm; [contradiction | assumption].
Qed.

(** C8: the code of a name is the first of its candidates that no link
    type has, the candidates being each character of the name in order,
    lower-cased then upper-cased, followed by the ASCII letters; when
    every candidate is in use the import fails. One code, new to the
    registry, is added for every name of the loop, and the loop runs over
    every name of the column once. With no link types, "Arterial" gets
    the code "a". *)
Theorem link_type_codes reg lt_name :
  add_link_type reg (VStr lt_name) =
    match List.find (free reg) (candidates lt_name) with
    | Some code => Ok (<[code := lt_name]> reg)
    | None => Raise all_in_use
    end /\
  (forall reg', add_link_type reg (VStr lt_name) = Ok reg' ->
     exists code, reg !! code = None /\ reg' = <[code := lt_name]> reg /\
       size reg' = S (size reg)) /\
  (forall names reg', add_link_types reg (fromkeys (VStr <$> names)) = Ok reg' ->
     NoDup (fromkeys (VStr <$> names)) /\
     (forall n, VStr n ∈ fromkeys (VStr <$> names) <-> n ∈ names) /\
     size reg' = size reg + length (fromkeys (VStr <$> names)) /\ reg ⊆ reg') /\
  add_link_type ∅ (VStr "Arterial") = Ok {[ "a"%string := "Arterial"%string ]}.
Proof.
  split; [apply add_link_type_find|]. split; [|split].
  - intros reg' H. apply add_link_type_fresh in H.
    destruct H as (name & code & [= <-] & Hn & -> & Hs). eauto.
  - intros names reg' H. destruct (fromkeys_names names) as [Hnd Hm].
    apply add_link_types_size in H. destruct H as [Hs Hsub].
    repeat split; try assumption.
    + intros Hv. apply Hm in Hv. destruct Hv as (m & [= ->] & Hin). exact Hin.
    + intros Hn. apply Hm. eauto.
  - reflexivity.
Qed.

(** ** Modes *)

(** C7 as stated fails: the table has no modes column and the link type
    "track" of link 12 is in none of the four lists, yet the import
    succeeds and hands link 12 to the store with the empty mode string. *)
Lemma unmapped_link_type_is_imported :
  bool_decide (gmns_modes_field example_params ∈ columns_to_list example_links) = false /\
  mode_of_link_type example_params (VStr "track") = ""%string /\
  exists out,
    create_from_gmns (fun _ => []) example_params example_links example_nodes ∅ = Ok out /\
    (fun l => (l_link_id l, l_link_type l, l_modes l)) <$> links_inserted out =
      [(VInt 11, VStr "Arterial", "c"%string); (VInt 12, VStr "track", ""%string)].
Proof.
  split; [reflexivity|]. split; [reflexivity|].
  eexists. split; [vm_compute; reflexivity | reflexivity].
Qed.

(** C7, amended: without a modes column the import fails when the table
    has no link-type column either (neither the configured one nor
    [link_type_name]); otherwise every row gets the letter of the first
    of the bicycle, car, transit and walk lists that has its link type,
    and a row whose link type is in none of them gets the empty mode
    string. *)
Theorem modes_without_modes_column modes_from_users ps df :
  gmns_modes_field ps ∉ columns_to_list df ->
  (link_type_field ps df ∉ columns_to_list df ->
   modes_list modes_from_users ps df = Raise no_link_types) /\
  (link_type_field ps df ∈ columns_to_list df ->
   modes_list modes_from_users ps df =
     Ok ((fun r => mode_of_link_type ps (get r (link_type_field ps df))) <$> rows df)) /\
  (forall link_type,
     py_in link_type (bike_link_types ps) = false ->
     py_in link_type (car_link_types ps) = false ->
     py_in link_type (transit_link_types ps) = false ->
     py_in link_type (walk_link_types ps) = false ->
     mode_of_link_type ps link_type = ""%string).
Proof.
  intros Hm. unfold modes_list. rewrite (bool_decide_eq_false_2 _ Hm).
  split; [|split].
  - intros Hl. rewrite (bool_decide_eq_false_2 _ Hl).
    unfold link_type_field in *. case_bool_decide as Hc; [contradiction|].
    reflexivity.
  - intros Hl. rewrite (bool_decide_eq_true_2 _ Hl).
    now rewrite andb_false_r.
  - intros v Hb Hc Ht Hw. unfold mode_of_link_type. now rewrite Hb, Hc, Ht, Hw.
Qed.

Lemma modes_without_modes_column_witness :
  modes_list (fun _ => []) example_params (two_way example_links).1 =
  Ok ["c"; ""]%string.
Proof.
  refine (proj1 (proj2 (modes_without_modes_column (fun _ => []) example_params
                          (two_way example_links).1 _)) _).
  - vm_compute. intros H. repeat (apply elem_of_cons in H; destruct H as [H|H];
      [discriminate|]). now apply elem_of_nil in H.
  - vm_compute. do 5 apply list_elem_of_further. apply list_elem_of_here.
Defined.

(** ** Required fields (lines 256-268) *)

Lemma columns_set_column field v df :
  columns_to_list (set_column field v df) = columns_to_list df ++ [field].
Proof. reflexivity. Qed.

Lemma key_set_column field v df :
  key <$> rows (set_column field v df) = key <$> rows df.
Proof. unfold set_column. simpl. rewrite <- list_fmap_compose. reflexivity. Qed.

Lemma link_id_set_column field v df :
  link_id <$> rows (set_column field v df) = link_id <$> rows df.
Proof. unfold set_column. simpl. rewrite <- list_fmap_compose. reflexivity. Qed.

(** X11: the links file passes the test of the required fields exactly when
    it has every required field but, possibly, [directed]; a missing
    [directed] column is added with [False] in every row, and nothing
    else is changed. Otherwise the error names the first required field
    that is missing and is not [directed]. *)
Theorem check_link_fields_directed fields df :
  match check_link_fields fields df with
  | Ok df' =>
      (forall f, f ∈ fields -> f ∈ columns_to_list df \/ f = "directed"%string) /\
      df' = if bool_decide ("directed"%string ∈ fields /\
                            "directed"%string ∉ columns_to_list df)
            then set_column "directed" (VBool false) df else df
  | Raise e =>
      exists pre f post,
        fields = pre ++ (f :: post) /\
        (forall g, g ∈ pre -> g ∈ columns_to_list df \/ g = "directed"%string) /\
        (f ∉ columns_to_list df) /\ f <> "directed"%string /\
        e = missing_link_field f
  end.
Proof.
  revert df. induction fields as [|field rest IH]; intros df; cbn [check_link_fields].
  - split; [intros f Hf; now apply elem_of_nil in Hf|].
    rewrite bool_decide_eq_false_2; [reflexivity|].
    intros [H _]. now apply elem_of_nil in H.
  - destruct (bool_decide (field ∈ columns_to_list df)) eqn:Ein.
    + apply bool_decide_eq_true in Ein. specialize (IH df).
      destruct (check_link_fields rest df) as [df'|e].
      * destruct IH as [Hall ->]. split.
        -- intros f Hf. apply elem_of_cons in Hf. destruct Hf as [->|Hf]; auto.
        -- apply (f_equal (fun b : bool => if b then _ else _)).
           apply bool_decide_ext. rewrite elem_of_cons. split; [tauto|].
           intros [[E|H] Hn]; [|tauto]. rewrite E in Hn. contradiction.
      * destruct IH as (pre & f & post & -> & Hpre & Hf & Hd & ->).
        exists (field :: pre), f, post. repeat split; try assumption.
        intros g Hg. apply elem_of_cons in Hg. destruct Hg as [->|Hg]; auto.
    + apply bool_decide_eq_false in Ein.
      destruct (bool_decide (field = "directed"%string)) eqn:Ed.
      * apply bool_decide_eq_true in Ed. subst field.
        specialize (IH (set_column "directed" (VBool false) df)).
        rewrite columns_set_column in IH.
        destruct (check_link_fields rest _) as [df'|e].
        -- destruct IH as [Hall ->]. split.
           ++ intros f Hf. apply elem_of_cons in Hf. destruct Hf as [->|Hf]; [auto|].
              destruct (Hall f Hf) as [H|H]; [|auto].
              apply elem_of_app in H. destruct H as [H|H]; [auto|].
              apply list_elem_of_singleton in H. auto.
           ++ rewrite bool_decide_eq_false_2.
              ** rewrite bool_decide_eq_true_2; [reflexivity|]. split; [left | assumption].
              ** intros [_ H]. apply H, elem_of_app. right. left.
        -- destruct IH as (pre & f & post & -> & Hpre & Hf & Hd & ->).
           exists ("directed"%string :: pre), f, post. repeat split; try assumption.
           ++ intros g Hg. apply elem_of_cons in Hg. destruct Hg as [->|Hg]; [auto|].
              destruct (Hpre g Hg) as [H|H]; [|auto].
              apply elem_of_app in H. destruct H as [H|H]; [auto|].
              apply list_elem_of_singleton in H. auto.
           ++ intros H. apply Hf, elem_of_app. now left.
      * apply bool_decide_eq_false in Ed.
        exists [], field, rest. repeat split; try assumption.
        intros g Hg. now apply elem_of_nil in Hg.
Qed.

(** ** The import as a whole *)

Lemma check_link_fields_rows fields : forall df df',
  check_link_fields fields df = Ok df' ->
  key <$> rows df' = key <$> rows df /\ link_id <$> rows df' = link_id <$> rows df.
Proof.
  induction fields as [|field rest IH]; intros df df'; cbn [check_link_fields].
  - intros H. injection H as <-. split; reflexivity.
  - destruct (bool_decide (field ∈ columns_to_list df)); [apply IH|].
    destruct (bool_decide (field = "directed"%string)); [|discriminate].
    intros H. apply IH in H. now rewrite key_set_column, link_id_set_column in H.
Qed.

Lemma check_link_fields_columns fields : forall df df',
  check_link_fields fields df = Ok df' ->
  forall f, f ∈ columns_to_list df' -> f ∈ columns_to_list df \/ f = "directed"%string.
Proof.
  induction fields as [|field rest IH]; intros df df'; cbn [check_link_fields].
  - intros H. injection H as <-. auto.
  - destruct (bool_decide (field ∈ columns_to_list df)); [exact (IH df df')|].
    destruct (bool_decide (field = "directed"%string)) eqn:Ed; [|discriminate].
    apply bool_decide_eq_true in Ed. subst field.
    intros H f Hf. destruct (IH _ _ H f Hf) as [Hin|]; [|auto].
    rewrite columns_set_column in Hin. apply elem_of_app in Hin.
    destruct Hin as [Hin|Hin]; [auto|]. apply list_elem_of_singleton in Hin. auto.
Qed.

(** What a successful import did, step by step. *)
Lemma create_from_gmns_inv mfu ps links nodes reg out :
  create_from_gmns mfu ps links nodes reg = Ok out ->
  exists dfd modes,
    key <$> rows dfd = key <$> rows links /\
    link_id <$> rows dfd = link_id <$> rows links /\
    (forall f, f ∈ columns_to_list dfd ->
       f ∈ columns_to_list links \/ f = "directed"%string \/ f = gmns_distance_field ps) /\
    gmns_distance_field ps ∈ columns_to_list dfd /\
    (gmns_distance_field ps ∉ columns_to_list links ->
     gmns_distance_field ps <> "directed"%string ->
     forall r, r ∈ rows dfd -> get r (gmns_distance_field ps) = VNone) /\
    let df := with_direction ps (two_way dfd).1 in
    let direction := normalise (direction_two_way ps df (two_way dfd).2) in
    add_link_types reg (fromkeys (link_types_list ps df)) = Ok (link_types out) /\
    modes_list mfu ps df = Ok modes /\
    nodes_inserted out = aeq_node_row ps <$> nrows nodes /\
    links_inserted out =
      imap (aeq_link_row ps direction (with_facilities df modes)
              (link_types_list ps df) (name_list ps df) (split ps df direction)) (rows df).
Proof.
  unfold create_from_gmns.
  destruct (check_node_fields _ _) as [[]|]; [|discriminate]. cbn [bind].
  destruct (check_link_fields _ _) as [df1|] eqn:E1; [|discriminate]. cbn [bind].
  pose proof (check_link_fields_columns _ _ _ E1) as Hc.
  apply check_link_fields_rows in E1. destruct E1 as [Hk Hl].
  destruct (negb _); [discriminate|].
  set (dfd := if bool_decide (gmns_distance_field ps ∈ columns_to_list df1)
              then df1 else set_column (gmns_distance_field ps) VNone df1).
  assert (Hd : key <$> rows dfd = key <$> rows links /\
               link_id <$> rows dfd = link_id <$> rows links /\
               (forall f, f ∈ columns_to_list dfd ->
                  f ∈ columns_to_list links \/ f = "directed"%string \/
                  f = gmns_distance_field ps) /\
               gmns_distance_field ps ∈ columns_to_list dfd /\
               (gmns_distance_field ps ∉ columns_to_list links ->
                gmns_distance_field ps <> "directed"%string ->
                forall r, r ∈ rows dfd -> get r (gmns_distance_field ps) = VNone)).
  { unfold dfd. destruct (bool_decide _) eqn:Ed.
    - apply bool_decide_eq_true in Ed. repeat split; try assumption.
      + intros f Hf. destruct (Hc f Hf); auto.
      + intros Hn Hne. destruct (Hc _ Ed); contradiction.
    - apply bool_decide_eq_false in Ed.
      rewrite key_set_column, link_id_set_column, columns_set_column.
      repeat split; try assumption.
      + intros f Hf. apply elem_of_app in Hf. destruct Hf as [Hf|Hf].
        * destruct (Hc f Hf); auto.
        * apply list_elem_of_singleton in Hf. auto.
      + apply elem_of_app. right. left.
      + intros _ _ r Hr. cbn [set_column rows] in Hr.
        apply list_elem_of_fmap in Hr. destruct Hr as (r0 & -> & _).
        apply get_set_column; intros E; apply Ed; rewrite E; unfold columns_to_list;
          [left | right; left | right; right; left]. }
  destruct (two_way dfd) as [df3 idxs] eqn:E2.
  destruct (add_link_types _ _) as [reg'|] eqn:E3; [|discriminate]. cbn [bind].
  destruct (modes_list _ _ _) as [modes|] eqn:E4; [|discriminate]. cbn [bind].
  unfold aeq_nodes_df, aeq_links_df.
  destruct (column (ncolumns nodes) _) as [[]|]; [|discriminate]. cbn [bind].
  destruct (attribute (ncolumns nodes) "x_coord") as [[]|]; [|discriminate]. cbn [bind].
  destruct (attribute (ncolumns nodes) "y_coord") as [[]|]; [|discriminate]. cbn [bind].
  destruct (column _ (gmns_link_id_field ps)) as [[]|]; [|discriminate]. cbn [bind].
  destruct (column _ (gmns_a_node_field ps)) as [[]|]; [|discriminate]. cbn [bind].
  destruct (column _ (gmns_b_node_field ps)) as [[]|]; [|discriminate]. cbn [bind].
  destruct (attribute _ "geometry") as [[]|]; [|discriminate]. cbn [bind].
  intros H. injection H as <-. exists dfd, modes. rewrite E2. cbn [fst snd].
  cbn [link_types nodes_inserted links_inserted].
  destruct Hd as (? & ? & ? & ? & ?). repeat split; assumption.
Qed.

Lemma key_with_direction ps df :
  key <$> rows (with_direction ps df) = key <$> rows df.
Proof. unfold with_direction. destruct (bool_decide _); [reflexivity | apply key_set_column]. Qed.

Lemma link_id_with_direction ps df :
  link_id <$> rows (with_direction ps df) = link_id <$> rows df.
Proof.
  unfold with_direction. destruct (bool_decide _); [reflexivity | apply link_id_set_column].
Qed.

Lemma group_size_NoDup l k : NoDup (key <$> l) -> group_size l k <= 1.
Proof.
  induction l as [|r l IH]; intros Hnd; [unfold group_size; simpl; lia|].
  rewrite fmap_cons in Hnd. apply NoDup_cons in Hnd. destruct Hnd as [Hnot Hnd].
  rewrite group_size_cons. destruct (decide (key r = k)) as [<-|]; [|now apply IH].
  assert (group_size l (key r) = 0); [|lia].
  destruct (group_size l (key r)) eqn:E; [reflexivity|].
  exfalso. apply Hnot, group_size_pos. lia.
Qed.

(** Without two rows between the same nodes the table is left alone. *)
Lemma two_way_NoDup df : NoDup (key <$> rows df) -> two_way df = (df, []).
Proof.
  intros Hnd. unfold two_way.
  assert (E : two_way_nodes (rows df) = []).
  { destruct (two_way_nodes (rows df)) as [|k ks] eqn:E; [reflexivity|].
    assert (Hk : k ∈ two_way_nodes (rows df)) by (rewrite E; left).
    apply elem_of_two_way_nodes in Hk.
    pose proof (group_size_NoDup (rows df) k Hnd). lia. }
  rewrite E. reflexivity.
Qed.

(** With two rows between the same nodes the table is sorted and cut. *)
Lemma two_way_dup df :
  ~ NoDup (key <$> rows df) ->
  (two_way df).1 = Frame (columns df) (drop_duplicates (sort_values (rows df))).
Proof.
  intros Hnd. unfold two_way.
  destruct (bool_decide (0 < length (two_way_nodes (rows df)))) eqn:E; [reflexivity|].
  exfalso. apply Hnd, NoDup_key_small. intros k.
  apply bool_decide_eq_false in E.
  destruct (decide (2 <= group_size (rows df) k)) as [H|H]; [|lia].
  apply elem_of_two_way_nodes in H.
  destruct (two_way_nodes (rows df)); [now apply elem_of_nil in H | simpl in E; lia].
Qed.

Lemma drop_duplicates_sorted l :
  StronglySorted by_link_id l -> StronglySorted by_link_id (drop_duplicates l).
Proof.
  induction 1 as [|r l Hs IH Hall]; simpl; [constructor|].
  destruct (bool_decide _); [assumption|].
  constructor; [assumption|].
  apply Forall_forall. intros x Hx. apply drop_duplicates_subseteq in Hx.
  rewrite Forall_forall in Hall. now apply Hall.
Qed.

(** The node pair of the link records, when the two nodes are read from
    the columns [from_node_id] and [to_node_id]. *)
Lemma links_inserted_nodes ps direction modes types names attrs (l : list row) :
  gmns_a_node_field ps = "from_node_id"%string ->
  gmns_b_node_field ps = "to_node_id"%string ->
  (fun x => (l_a_node x, l_b_node x)) <$>
    imap (aeq_link_row ps direction modes types names attrs) l =
  (fun r => (VInt (from_node_id r), VInt (to_node_id r))) <$> l.
Proof.
  intros Ha Hb. rewrite fmap_imap.
  rewrite <- (imap_const (fun r => (VInt (from_node_id r), VInt (to_node_id r)))).
  apply imap_ext. intros i r _. unfold compose, const. cbn [aeq_link_row l_a_node l_b_node].
  now rewrite Ha, Hb.
Qed.

(** The [link_id] of the link records, when it is read from the column
    [link_id]. *)
Lemma links_inserted_link_id ps direction modes types names attrs (l : list row) :
  gmns_link_id_field ps = "link_id"%string ->
  l_link_id <$> imap (aeq_link_row ps direction modes types names attrs) l =
  (fun r => VInt (link_id r)) <$> l.
Proof.
  intros Hi. rewrite fmap_imap.
  rewrite <- (imap_const (fun r => VInt (link_id r))).
  apply imap_ext. intros i r _. unfold compose, const. cbn [aeq_link_row l_link_id].
  now rewrite Hi.
Qed.

(** X14: one link per pair of nodes: when the two nodes of a link are
    configured to be read from the columns [from_node_id] and
    [to_node_id], the columns the rows are grouped by, the links handed
    to the store have pairwise different [(a_node, b_node)], every pair
    of nodes of the links file is among them, and there is one node
    record per row of the nodes file. *)
Theorem create_from_gmns_one_link_per_pair mfu ps links nodes reg out :
  gmns_a_node_field ps = "from_node_id"%string ->
  gmns_b_node_field ps = "to_node_id"%string ->
  create_from_gmns mfu ps links nodes reg = Ok out ->
  NoDup ((fun l => (l_a_node l, l_b_node l)) <$> links_inserted out) /\
  length (links_inserted out) = length (remove_dups (key <$> rows links)) /\
  (forall a b, (a, b) ∈ key <$> rows links <->
     (VInt a, VInt b) ∈ (fun l => (l_a_node l, l_b_node l)) <$> links_inserted out) /\
  length (nodes_inserted out) = length (nrows nodes).
Proof.
  intros Ha Hb H. apply create_from_gmns_inv in H.
  destruct H as (dfd & modes & Hk & _ & _ & _ & _ & _ & _ & Hn & Hl).
  pose proof (two_way_props dfd) as (_ & Hsub & Hnd & _ & _ & Hall & _).
  set (df3 := (two_way dfd).1) in *.
  assert (Hpairs : (fun l => (l_a_node l, l_b_node l)) <$> links_inserted out =
                   (fun k : Z * Z => (VInt k.1, VInt k.2)) <$> (key <$> rows df3)).
  { rewrite Hl, (links_inserted_nodes _ _ _ _ _ _ _ Ha Hb).
    rewrite <- (key_with_direction ps df3), <- !list_fmap_compose. reflexivity. }
  assert (Hperm : key <$> rows df3 ≡ₚ remove_dups (key <$> rows links)).
  { apply NoDup_Permutation; [assumption | apply NoDup_remove_dups|].
    intros k. rewrite elem_of_remove_dups, <- Hk. split.
    - intros Hin. apply list_elem_of_fmap in Hin. destruct Hin as (r & -> & Hr).
      apply list_elem_of_fmap. exists r. split; [reflexivity | now apply Hsub].
    - apply Hall. }
  split; [|split; [|split]].
  - rewrite Hpairs. apply NoDup_fmap_2; [|assumption].
    intros [a b] [c d] E. simpl in E. congruence.
  - rewrite <- Hperm, Hl, length_imap, length_fmap.
    rewrite <- (length_fmap key (rows (with_direction ps df3))), key_with_direction.
    now rewrite length_fmap.
  - intros a b. rewrite Hpairs, <- Hk. split.
    + intros Hin. apply list_elem_of_fmap. exists (a, b). split; [reflexivity|].
      now apply Hall.
    + intros Hin. apply list_elem_of_fmap in Hin. destruct Hin as ([a' b'] & E & Hin).
      simpl in E. injection E as -> ->.
      apply list_elem_of_fmap in Hin. destruct Hin as (r & -> & Hr).
      apply list_elem_of_fmap. exists r. split; [reflexivity | now apply Hsub].
  - rewrite Hn. now rewrite length_fmap.
Qed.

Lemma create_from_gmns_one_link_per_pair_witness :
  exists out,
    create_from_gmns (fun _ => []) example_params example_links example_nodes ∅ = Ok out /\
    NoDup ((fun l => (l_a_node l, l_b_node l)) <$> links_inserted out) /\
    length (links_inserted out) = length (remove_dups (key <$> rows example_links)).
Proof.
  eexists. split; [vm_compute; reflexivity|].
  refine (let H := create_from_gmns_one_link_per_pair (fun _ => []) example_params
                     example_links example_nodes ∅ _ eq_refl eq_refl _ in
          conj (proj1 H) (proj1 (proj2 H))).
  vm_compute. reflexivity.
Defined.

(** X15: the order of the links handed to the store, when the link id is
    configured to be read from the column [link_id], the column the rows
    are sorted by: the order of the file when no two rows join the same
    nodes, and increasing [link_id] otherwise. *)
Theorem create_from_gmns_order mfu ps links nodes reg out :
  gmns_link_id_field ps = "link_id"%string ->
  create_from_gmns mfu ps links nodes reg = Ok out ->
  exists ids,
    l_link_id <$> links_inserted out = VInt <$> ids /\
    (forall i, i ∈ ids -> i ∈ link_id <$> rows links) /\
    (NoDup (key <$> rows links) -> ids = link_id <$> rows links) /\
    (~ NoDup (key <$> rows links) -> StronglySorted Z.le ids).
Proof.
  intros Hid H. apply create_from_gmns_inv in H.
  destruct H as (dfd & modes & Hk & Hi & _ & _ & _ & _ & _ & _ & Hl).
  exists (link_id <$> rows (two_way dfd).1). split; [|split; [|split]].
  - rewrite Hl, (links_inserted_link_id _ _ _ _ _ _ _ Hid).
    rewrite <- (link_id_with_direction ps (two_way dfd).1), <- !list_fmap_compose.
    reflexivity.
  - intros i Hin. rewrite <- Hi.
    pose proof (two_way_props dfd) as (_ & Hsub & _).
    apply list_elem_of_fmap in Hin. destruct Hin as (r & -> & Hr).
    apply list_elem_of_fmap. exists r. split; [reflexivity | now apply Hsub].
  - intros Hnd. rewrite <- Hk in Hnd. now rewrite (two_way_NoDup dfd Hnd).
  - intros Hnd. rewrite <- Hk in Hnd. rewrite (two_way_dup dfd Hnd). cbn [rows].
    pose proof (drop_duplicates_sorted _ (sort_values_sorted (rows dfd))) as Hs.
    induction Hs as [|r l Hs IH Hall]; [constructor|].
    rewrite fmap_cons. constructor; [assumption|].
    rewrite Forall_fmap. exact Hall.
Qed.

Lemma create_from_gmns_order_witness :
  exists out,
    create_from_gmns (fun _ => []) example_params example_links example_nodes ∅ = Ok out /\
    exists ids, l_link_id <$> links_inserted out = VInt <$> ids /\
                StronglySorted Z.le ids.
Proof.
  eexists. split; [vm_compute; reflexivity|].
  eassert (E : create_from_gmns (fun _ => []) example_params example_links
                 example_nodes ∅ = Ok _) by (vm_compute; reflexivity).
  destruct (create_from_gmns_order _ example_params _ _ _ _ eq_refl E)
    as (ids & H1 & _ & _ & H4).
  exists ids. split; [exact H1|]. apply H4.
  intros Hnd. cbv in Hnd. inversion Hnd as [|x l Hnot Hrest].
  apply Hnot. right. left.
Defined.

(** ** Errors of the import *)

Lemma check_node_fields_ok fields nodes :
  (forall f, f ∈ fields -> f ∈ ncolumns nodes) -> check_node_fields fields nodes = Ok tt.
Proof.
  induction fields as [|f rest IH]; intros H; [reflexivity|]. cbn [check_node_fields].
  rewrite bool_decide_eq_true_2 by (apply H; left).
  apply IH. intros g Hg. apply H. now right.
Qed.

Lemma check_node_fields_missing pre f post nodes :
  (forall g, g ∈ pre -> g ∈ ncolumns nodes) -> f ∉ ncolumns nodes ->
  check_node_fields (pre ++ f :: post) nodes = Raise (missing_node_field f).
Proof.
  induction pre as [|g pre IH]; intros H Hf; cbn [check_node_fields app].
  - now rewrite bool_decide_eq_false_2.
  - rewrite bool_decide_eq_true_2 by (apply H; left).
    apply IH; [|assumption]. intros x Hx. apply H. now right.
Qed.

(** X12: the nodes file is tested first: when it lacks a required field the
    import raises the error of the first such field, whatever the links
    file holds, and nothing is handed to the store. *)
Theorem create_from_gmns_missing_node_field mfu ps links nodes reg pre f post :
  required_node_fields ps = pre ++ f :: post ->
  (forall g, g ∈ pre -> g ∈ ncolumns nodes) -> f ∉ ncolumns nodes ->
  create_from_gmns mfu ps links nodes reg = Raise (missing_node_field f).
Proof.
  intros E Hpre Hf. unfold create_from_gmns.
  now rewrite E, check_node_fields_missing.
Qed.

Lemma create_from_gmns_missing_node_field_witness :
  create_from_gmns (fun _ => []) example_params example_links
    (NFrame ["node_id"; "y_coord"]%string []) ∅ = Raise (missing_node_field "x_coord").
Proof.
  apply (create_from_gmns_missing_node_field _ _ _ _ _ ["node_id"%string] "x_coord"
           ["y_coord"%string]).
  - reflexivity.
  - intros g Hg. apply list_elem_of_singleton in Hg. subst g. left.
  - intros H. cbn in H. repeat (apply elem_of_cons in H; destruct H as [H|H];
      [discriminate|]). now apply elem_of_nil in H.
Defined.


(** X13: a links file without the geometry column is refused, also when it
    has every required field. *)
Theorem create_from_gmns_missing_geometry mfu ps links nodes reg :
  (forall f, f ∈ required_node_fields ps -> f ∈ ncolumns nodes) ->
  gmns_geometry_field ps ∉ columns_to_list links ->
  gmns_geometry_field ps <> "directed"%string ->
  exists e, create_from_gmns mfu ps links nodes reg = Raise e /\
    ((forall f, f ∈ required_link_fields ps ->
        f ∈ columns_to_list links \/ f = "directed"%string) ->
     e = missing_geometry).
Proof.
  intros Hn Hg Hd. unfold create_from_gmns.
  rewrite check_node_fields_ok by assumption. cbn [bind].
  destruct (check_link_fields _ _) as [df1|e] eqn:E; cbn [bind].
  - rewrite bool_decide_eq_false_2.
    + eexists. split; [reflexivity | auto].
    + intros H. apply (check_link_fields_columns _ _ _ E) in H. tauto.
  - exists e. split; [reflexivity|]. intros Hall. exfalso.
    revert E. generalize (required_link_fields ps) links Hall. clear.
    induction l as [|field rest IH]; intros df Hall; cbn [check_link_fields]; [discriminate|].
    destruct (bool_decide (field ∈ columns_to_list df)) eqn:Ein.
    + apply IH. intros f Hf. apply Hall. now right.
    + apply bool_decide_eq_false in Ein.
      destruct (Hall field ltac:(left)) as [?| ->]; [contradiction|].
      rewrite bool_decide_eq_true_2 by reflexivity.
      apply IH. intros f Hf. rewrite columns_set_column, elem_of_app.
      destruct (Hall f ltac:(now right)); auto.
Qed.

Lemma create_from_gmns_missing_geometry_witness :
  exists e,
    create_from_gmns (fun _ => []) example_params
      (Frame ["dir_flag"; "facility_type"]%string (rows example_links)) example_nodes ∅ =
    Raise e /\ e = missing_geometry.
Proof.
  destruct (create_from_gmns_missing_geometry (fun _ => []) example_params
              (Frame ["dir_flag"; "facility_type"]%string (rows example_links))
              example_nodes ∅) as (e & H1 & H2).
  - intros f Hf. exact Hf.
  - intros H. cbn in H. repeat (apply elem_of_cons in H; destruct H as [H|H];
      [discriminate|]). now apply elem_of_nil in H.
  - discriminate.
  - exists e. split; [exact H1|]. apply H2.
    intros f Hf. cbn in Hf.
    repeat (apply elem_of_cons in Hf; destruct Hf as [->|Hf];
      [first [left; cbn; (left || (right; left) || (right; right; left)) | now right]|]).
    now apply elem_of_nil in Hf.
Defined.

(** ** Facilities (lines 471-483) *)

Lemma prefix_app_r a : forall b x, String.prefix a b = true -> String.prefix a (b ++ x) = true.
Proof.
  induction a as [|c a IH]; intros b x H.
  - now destruct (b ++ x)%string.
  - destruct b as [|d b]; [discriminate|]. simpl in *.
    destruct (ascii_dec c d); [now apply IH | discriminate].
Qed.

Lemma prefix_refl a : String.prefix a a = true.
Proof.
  induction a as [|c a IH]; [reflexivity|]. simpl.
  destruct (ascii_dec c c); [assumption | contradiction].
Qed.

Lemma str_contains_unfold sub s :
  str_contains sub s =
  if String.prefix sub s then true
  else match s with
       | EmptyString => false
       | String _ s' => str_contains sub s'
       end.
Proof. now destruct s. Qed.

Lemma append_cons c (m x : string) : (String c m ++ x)%string = String c (m ++ x).
Proof. reflexivity. Qed.

Lemma str_contains_app_r sub m x :
  str_contains sub m = true -> str_contains sub (m ++ x) = true.
Proof.
  induction m as [|c m IH]; rewrite (str_contains_unfold sub).
  - destruct (String.prefix sub "") eqn:E; [|discriminate]. intros _.
    rewrite str_contains_unfold. now rewrite (prefix_app_r _ _ x E).
  - destruct (String.prefix sub (String c m)) eqn:E.
    + intros _. rewrite str_contains_unfold. now rewrite (prefix_app_r _ _ x E).
    + intros H. rewrite str_contains_unfold, append_cons, (IH H).
      now destruct (String.prefix sub (String c (m ++ x))).
Qed.

Lemma str_contains_app_self sub m : str_contains sub (m ++ sub) = true.
Proof.
  induction m as [|c m IH]; rewrite str_contains_unfold.
  - change (("" ++ sub)%string) with sub. now rewrite prefix_refl.
  - rewrite append_cons, IH. now destruct (String.prefix sub (String c (m ++ sub))).
Qed.

Lemma add_facility_cases df field facilities letter r m :
  let m' := add_facility df field facilities letter r m in
  (m' = m \/ m' = (m ++ letter)%string /\ str_contains letter m = false) /\
  (field ∈ columns_to_list df -> py_in (get r field) facilities = true ->
   str_contains letter m' = true) /\
  (field ∉ columns_to_list df -> m' = m).
Proof.
  unfold add_facility. destruct (bool_decide (field ∈ columns_to_list df)) eqn:E;
    [apply bool_decide_eq_true in E | apply bool_decide_eq_false in E].
  - destruct (py_in (get r field) facilities) eqn:Ef, (str_contains letter m) eqn:Ec;
      simpl;
      (split; [auto|]; split;
       [ intros _ Hp; try discriminate; first [assumption | apply str_contains_app_self]
       | intros Hn; contradiction ]).
  - split; [auto|]. split; [intros Hin; contradiction | reflexivity].
Qed.

(** X16: the two facility columns only ever append a ["b"], a ["w"] or both
    to the mode string of a row, each at most once and never a letter
    the string holds already; a row with a listed bike facility ends
    with a ["b"] in its mode string, a row with a listed pedestrian
    facility with a ["w"]. *)
Theorem with_facilities_letters df modes i r m :
  rows df !! i = Some r -> modes !! i = Some m ->
  exists m', with_facilities df modes !! i = Some m' /\
    (m' = m \/ m' = (m ++ "b")%string \/ m' = (m ++ "w")%string \/
     m' = (m ++ "bw")%string) /\
    (str_contains "b" m = true -> m' = m \/ m' = (m ++ "w")%string) /\
    (str_contains "w" m = true -> m' = m \/ m' = (m ++ "b")%string) /\
    ("bike_facility"%string ∈ columns_to_list df ->
     py_in (get r "bike_facility") gmns_bike_facilities = true ->
     str_contains "b" m' = true) /\
    ("ped_facility"%string ∈ columns_to_list df ->
     py_in (get r "ped_facility") gmns_ped_facilities = true ->
     str_contains "w" m' = true) /\
    ("bike_facility"%string ∉ columns_to_list df ->
     "ped_facility"%string ∉ columns_to_list df -> m' = m).
Proof.
  intros Hr Hm. unfold with_facilities. rewrite lookup_zip_with, Hr. simpl. rewrite Hm. simpl.
  eexists. split; [reflexivity|].
  pose proof (add_facility_cases df "bike_facility" gmns_bike_facilities "b" r m) as Hb.
  cbv zeta in Hb. revert Hb.
  generalize (add_facility df "bike_facility" gmns_bike_facilities "b" r m) as mb.
  intros mb (Hb1 & Hb2 & Hb3).
  pose proof (add_facility_cases df "ped_facility" gmns_ped_facilities "w" r mb) as Hw.
  cbv zeta in Hw. revert Hw.
  generalize (add_facility df "ped_facility" gmns_ped_facilities "w" r mb) as mw.
  intros mw (Hw1 & Hw2 & Hw3).
  assert (Happ : forall s : string, ((s ++ "b") ++ "w")%string = (s ++ "bw")%string).
  { intros s. induction s as [|c s IH]; [reflexivity|]. rewrite !append_cons. now rewrite IH. }
  split; [|split; [|split; [|split; [|split]]]].
  - destruct Hb1 as [->|[-> _]], Hw1 as [->|[-> _]]; rewrite ?Happ; auto.
  - intros Hc. destruct Hb1 as [->|[_ Hn]]; [|congruence].
    destruct Hw1 as [->|[-> _]]; auto.
  - intros Hc. destruct Hw1 as [->|[_ Hn]]; [destruct Hb1 as [->|[-> _]]; auto|].
    exfalso. destruct Hb1 as [->|[-> _]]; [congruence|].
    rewrite (str_contains_app_r _ _ _ Hc) in Hn. discriminate.
  - intros Hin Hf. specialize (Hb2 Hin Hf).
    destruct Hw1 as [->|[-> _]]; [assumption|]. now apply str_contains_app_r.
  - assumption.
  - intros H1 H2. rewrite (Hw3 H2). now apply Hb3.
Qed.

Lemma with_facilities_letters_witness :
  exists m', with_facilities
               (Frame ["bike_facility"]%string
                  [Row 1 1 2 {[ "bike_facility"%string := VStr "bikelane" ]}])
               ["c"%string] !! 0 = Some m' /\ str_contains "b" m' = true.
Proof.
  destruct (with_facilities_letters
              (Frame ["bike_facility"]%string
                 [Row 1 1 2 {[ "bike_facility"%string := VStr "bikelane" ]}])
              ["c"%string] 0 _ "c" eq_refl eq_refl) as (m' & H1 & _ & _ & _ & H5 & _).
  exists m'. split; [exact H1|]. apply H5.
  - cbn. do 3 right. left.
  - reflexivity.
Defined.

(** ** The link types of the links *)

Lemma py_eq_str n v : py_eq (VStr n) v = true -> v = VStr n.
Proof.
  destruct v; try discriminate. unfold py_eq; simpl.
  intros H. apply bool_decide_eq_true in H. now subst.
Qed.

(** When the distinct values are strings, every value is one of them. *)
Lemma fromkeys_strings l :
  (forall u, u ∈ fromkeys l -> exists n, u = VStr n) ->
  forall v, v ∈ l -> v ∈ fromkeys l.
Proof.
  induction l as [|x rest IH]; intros Hstr v Hv; [assumption|].
  cbn [fromkeys] in *.
  destruct (Hstr x ltac:(left)) as [n ->].
  assert (Hrest : forall u, u ∈ fromkeys rest -> exists n, u = VStr n).
  { intros u Hu. destruct (py_eq (VStr n) u) eqn:E.
    - apply py_eq_str in E. eauto.
    - apply Hstr. right. apply list_elem_of_In, filter_In.
      split; [now apply list_elem_of_In | now rewrite E]. }
  apply elem_of_cons in Hv. destruct Hv as [->|Hv]; [left|].
  specialize (IH Hrest v Hv).
  destruct (py_eq (VStr n) v) eqn:E.
  - apply py_eq_str in E. subst v. left.
  - right. apply list_elem_of_In, filter_In.
    split; [now apply list_elem_of_In | now rewrite E].
Qed.

Lemma add_link_types_registered names : forall reg reg',
  add_link_types reg names = Ok reg' ->
  forall u, u ∈ names -> exists name code, u = VStr name /\ reg' !! code = Some name.
Proof.
  induction names as [|x rest IH]; intros reg reg' H u Hu; [now apply elem_of_nil in Hu|].
  cbn [add_link_types] in H.
  destruct (add_link_type reg x) as [reg1|] eqn:E1; [|discriminate]. cbn [bind] in H.
  apply elem_of_cons in Hu. destruct Hu as [->|Hu]; [|now apply (IH _ _ H)].
  apply add_link_type_fresh in E1. destruct E1 as (name & code & -> & _ & -> & _).
  exists name, code. split; [reflexivity|].
  apply add_link_types_size in H. destruct H as [_ Hsub].
  eapply lookup_weaken; [|exact Hsub]. apply lookup_insert_eq.
Qed.

(** X17: after an import the link type of every link handed to the store is
    the full name of a registered link type (the name, not its code),
    and the link types registered before are all still there. *)
Theorem create_from_gmns_link_types mfu ps links nodes reg out :
  create_from_gmns mfu ps links nodes reg = Ok out ->
  reg ⊆ link_types out /\
  forall l, l ∈ links_inserted out ->
    exists name code, l_link_type l = VStr name /\ link_types out !! code = Some name.
Proof.
  intros H. apply create_from_gmns_inv in H.
  destruct H as (dfd & modes & _ & _ & _ & _ & _ & Hreg & _ & _ & Hl).
  split; [now apply add_link_types_size in Hreg|].
  intros l Hin. rewrite Hl in Hin.
  apply list_elem_of_lookup in Hin. destruct Hin as (i & Hi).
  apply list_lookup_imap_Some in Hi. destruct Hi as (r & Hr & ->).
  cbn [aeq_link_row l_link_type].
  set (df := with_direction ps (two_way dfd).1) in *.
  assert (Hlen : exists v, link_types_list ps df !! i = Some v).
  { apply lookup_lt_is_Some. apply lookup_lt_Some in Hr.
    unfold link_types_list. destruct (bool_decide _); now rewrite length_fmap. }
  destruct Hlen as [v Hv]. rewrite Hv. simpl.
  apply (add_link_types_registered _ _ _ Hreg).
  apply fromkeys_strings.
  - intros u Hu. destruct (add_link_types_registered _ _ _ Hreg u Hu) as (n & _ & -> & _).
    eauto.
  - eapply list_elem_of_lookup_2. exact Hv.
Qed.

Lemma create_from_gmns_link_types_witness :
  exists out,
    create_from_gmns (fun _ => []) example_params example_links example_nodes ∅ = Ok out /\
    forall l, l ∈ links_inserted out ->
      exists name code, l_link_type l = VStr name /\ link_types out !! code = Some name.
Proof.
  eexists. split; [vm_compute; reflexivity|].
  eassert (E : create_from_gmns (fun _ => []) example_params example_links
                 example_nodes ∅ = Ok _) by (vm_compute; reflexivity).
  exact (proj2 (create_from_gmns_link_types _ _ _ _ _ _ E)).
Defined.

(** ** Values the import fills in *)

Lemma get_set_column_ne field v r f :
  field <> f ->
  get (Row (link_id r) (from_node_id r) (to_node_id r) (<[field := v]> (cells r))) f =
  get r f.
Proof.
  intros Hne. unfold get. cbn [link_id from_node_id to_node_id cells].
  now rewrite lookup_insert_ne.
Qed.

Lemma columns_two_way df : columns_to_list (two_way df).1 = columns_to_list df.
Proof.
  unfold columns_to_list. now destruct (two_way_props df) as (-> & _).
Qed.

(** X18: every node handed to the store is no centroid and every node and
    link carries the note ["from GMNS file"]; the links of a file
    without the distance column have the distance [None], and those of
    a file without the name column the name [''] (the names of the
    columns the import adds, [directed], the distance and the direction
    column, apart). *)
Theorem create_from_gmns_defaults mfu ps links nodes reg out :
  create_from_gmns mfu ps links nodes reg = Ok out ->
  (forall n, n ∈ nodes_inserted out ->
     n_is_centroid n = 0%Z /\ n_notes n = "from GMNS file"%string) /\
  (forall l, l ∈ links_inserted out ->
     l_notes l = "from GMNS file"%string /\
     (gmns_distance_field ps ∉ columns_to_list links ->
      gmns_distance_field ps <> "directed"%string ->
      l_distance l = VNone) /\
     (gmns_name_field ps ∉ columns_to_list links ->
      gmns_name_field ps <> "directed"%string ->
      gmns_name_field ps <> gmns_distance_field ps ->
      gmns_name_field ps <> gmns_direction_field ps ->
      l_name l = VStr "")).
Proof.
  intros H. apply create_from_gmns_inv in H.
  destruct H as (dfd & modes & _ & _ & Hcols & Hdist & Hnone & _ & _ & Hn & Hl).
  split.
  - intros n Hin. rewrite Hn in Hin.
    apply list_elem_of_fmap in Hin. destruct Hin as (r & -> & _). now split.
  - intros l Hin. rewrite Hl in Hin.
    apply list_elem_of_lookup in Hin. destruct Hin as (i & Hi).
    apply list_lookup_imap_Some in Hi. destruct Hi as (r & Hr & ->).
    cbn [aeq_link_row l_notes l_distance l_name].
    pose proof (two_way_props dfd) as (_ & Hsub & _).
    pose proof (columns_two_way dfd) as Hc3.
    set (df3 := (two_way dfd).1) in *.
    split; [reflexivity|]. split.
    + intros Hd Hne. unfold with_direction in Hr.
      destruct (bool_decide (gmns_direction_field ps ∈ columns_to_list df3)) eqn:Edir.
      * apply Hnone; try assumption. apply Hsub. eapply list_elem_of_lookup_2. exact Hr.
      * apply bool_decide_eq_false in Edir. cbn [set_column rows] in Hr.
        rewrite list_lookup_fmap in Hr.
        destruct (rows df3 !! i) as [r0|] eqn:E0; [|discriminate].
        injection Hr as <-. rewrite get_set_column_ne.
        -- apply Hnone; try assumption. apply Hsub. eapply list_elem_of_lookup_2. exact E0.
        -- intros E. apply Edir. rewrite E, Hc3. assumption.
    + intros Hname H1 H2 H3.
      assert (Hnot : gmns_name_field ps ∉
                     columns_to_list (with_direction ps df3)).
      { unfold with_direction. destruct (bool_decide _).
        - rewrite Hc3. intros Hin. destruct (Hcols _ Hin) as [?|[?|?]]; contradiction.
        - rewrite columns_set_column, Hc3. intros Hin. apply elem_of_app in Hin.
          destruct Hin as [Hin|Hin].
          + destruct (Hcols _ Hin) as [?|[?|?]]; contradiction.
          + apply list_elem_of_singleton in Hin. contradiction. }
      unfold name_list. rewrite bool_decide_eq_false_2 by assumption.
      rewrite list_lookup_fmap, Hr. reflexivity.
Qed.

Lemma create_from_gmns_defaults_witness :
  exists out,
    create_from_gmns (fun _ => []) example_params example_links example_nodes ∅ = Ok out /\
    forall l, l ∈ links_inserted out -> l_distance l = VNone /\ l_name l = VStr "".
Proof.
  eexists. split; [vm_compute; reflexivity|].
  eassert (E : create_from_gmns (fun _ => []) example_params example_links
                 example_nodes ∅ = Ok _) by (vm_compute; reflexivity).
  intros l Hl.
  destruct (proj2 (create_from_gmns_defaults _ _ _ _ _ _ E) l Hl) as (_ & Hd & Hn).
  split; [apply Hd | apply Hn]; try discriminate.
  all: intros H; cbn in H;
    repeat (apply elem_of_cons in H; destruct H as [H|H]; [discriminate|]);
    now apply elem_of_nil in H.
Defined.

(** ** The directions of the links *)

Lemma length_direction_two_way ps df idxs :
  length (direction_two_way ps df idxs) = length (rows df).
Proof. unfold direction_two_way. now rewrite length_assign_all, length_fmap. Qed.

(** X19: every link handed to the store has a direction equal to 1, 0 or -1,
    whatever the direction column of the file held. *)
Theorem create_from_gmns_directions mfu ps links nodes reg out :
  create_from_gmns mfu ps links nodes reg = Ok out ->
  forall l, l ∈ links_inserted out ->
    py_in (l_direction l) [VInt 1; VInt 0; VInt (-1)] = true.
Proof.
  intros H. apply create_from_gmns_inv in H.
  destruct H as (dfd & modes & _ & _ & _ & _ & _ & _ & _ & _ & Hl).
  intros l Hin. rewrite Hl in Hin.
  apply list_elem_of_lookup in Hin. destruct Hin as (i & Hi).
  apply list_lookup_imap_Some in Hi. destruct Hi as (r & Hr & ->).
  cbn [aeq_link_row l_direction].
  set (df := with_direction ps (two_way dfd).1) in *.
  set (direction := normalise (direction_two_way ps df (two_way dfd).2)).
  assert (Hd : exists d, direction !! i = Some d).
  { apply lookup_lt_is_Some. unfold direction, normalise.
    rewrite length_fmap, length_direction_two_way. now apply lookup_lt_Some in Hr. }
  destruct Hd as [d Hd]. rewrite Hd. simpl.
  exact (normalise_elem _ i d Hd).
Qed.

Lemma create_from_gmns_directions_witness :
  exists out,
    create_from_gmns (fun _ => []) example_params example_links example_nodes ∅ = Ok out /\
    Forall (fun l => py_in (l_direction l) [VInt 1; VInt 0; VInt (-1)] = true)
      (links_inserted out).
Proof.
  eexists. split; [vm_compute; reflexivity|].
  eassert (E : create_from_gmns (fun _ => []) example_params example_links
                 example_nodes ∅ = Ok _) by (vm_compute; reflexivity).
  apply Forall_forall. exact (create_from_gmns_directions _ _ _ _ _ _ E).
Defined.

End Gmns.

(** * [build_graphs] *)

Module Graphs.

(** A row of the links table as [pd.read_sql] returns it: the text of its
    [modes] column and the cells of its other columns. *)
Record link : Type := Link {
  modes : string;
  cells : gmap string Gmns.pyval
}.

(** A table: [number] has the names of its columns of a numeric dtype
    ([select_dtypes(np.number).columns]), [links] its rows. Which columns
    are numeric is for pandas to say: the columns of a table read without
    rows are not. *)
Record table : Type := Table {
  number : list string;
  links : list link
}.

(** What a [Graph] is given: its mode, its network, the centroids it is
    prepared with and whether flows through centroids are blocked. *)
Record Graph : Type := MkGraph {
  mode : string;
  network : table;
  centroids : list Z;
  blocked_centroid_flows : bool
}.

(** The database the network reads. *)
Record database : Type := Database {
  table_info : list string;                (* PRAGMA table_info(links), the names *)
  read_sql : list string -> result table;  (* select <fields> from links *)
  mode_ids : list string;                  (* select mode_id from modes *)
  centroid_ids : list Z                    (* the centroids, ordered by node_id *)
}.

(** The [fields] argument is a reference to a list object of the caller,
    or [None]; [heap] holds the list objects. *)
Definition loc : Type := nat.

(** The [modes] argument: [None], one string, or a list. *)
Inductive modes_arg : Type :=
| ModesNone
| ModesStr (m : string)
| ModesList (l : list string).

(** The network: its graphs, next to the list objects of the program. *)
Record state : Type := State {
  heap : gmap loc (list string);
  graphs : gmap string Graph
}.

Definition ignore_fields : list string := ["ogc_fid"; "geometry"]%string.

Definition identity_fields : list string :=
  ["link_id"; "a_node"; "b_node"; "direction"; "modes"]%string.

(** Lines 578-586: the list objects after the step, and [all_fields].
    [fields.extend] changes the object [fields] refers to;
    [list(set(fields))] lists it without repeats, in no particular order. *)
Definition all_fields (db : database) (fields : option loc) (h : gmap loc (list string))
  : gmap loc (list string) * list string :=
  match fields with
  | None =>
      (h, filter (fun f => f ∉ ignore_fields) (table_info db))
  | Some fields =>
      let h' := alter (fun l => l ++ identity_fields) fields h in
      (h', elements (list_to_set (default [] (h' !! fields)) : gset string))
  end.

(** Lines 588-592. *)
Definition selected (db : database) (modes : modes_arg) : list string :=
  match modes with
  | ModesNone => mode_ids db
  | ModesStr m => [m]
  | ModesList l => l
  end.

(** Line 601, [df[valid_fields]], for a table with the column [modes]:
    the numeric columns and [modes]. *)
Definition valid_fields (df : table) (r : link) : link :=
  Link (modes r) (filter (fun c => c.1 ∈ number df) (cells r)).

Definition data (df : table) : table :=
  Table (number df) (valid_fields df <$> links df).

(** [row["a_node"]]. *)
Definition a_node (r : link) : Gmns.pyval := default Gmns.VNaN (cells r !! "a_node"%string).

Section BuildGraphs.
(** [s.str.contains(m)] of pandas, [m] first. *)
Variable contains : string -> string -> bool.

(** [g.prepare_graph(centroids)] for the graph of mode [m] with the
    network [net]: the graph constructor, whose code is not part of the
    module; it may raise. *)
Variable prepare_graph : string -> table -> list Z -> result unit.

(** Line 604 on a copy of [data]. The right-hand side reads the column
    [a_node], a [KeyError] when [data] has none; the assignment writes the
    rows whose modes do not contain [m], and makes the column [b_node],
    of [NaN] in the other rows, when [data] has none. *)
Definition net (m : string) (data : table) : result table :=
  if bool_decide ("a_node"%string ∈ number data) then
    let b_node := bool_decide ("b_node"%string ∈ number data) in
    Ok (Table (if b_node then number data else number data ++ ["b_node"%string])
          ((fun r => if negb (contains m (modes r))
                     then Link (modes r) (<["b_node"%string := a_node r]> (cells r))
                     else if b_node then r
                          else Link (modes r) (<["b_node"%string := Gmns.VNaN]> (cells r)))
             <$> links data))
  else Raise (KeyError "a_node").

(** Lines 603-609. *)
Definition graph (db : database) (data : table) (m : string) : result Graph :=
  do net <- net m data ;
  do _ <- prepare_graph m net (centroid_ids db) ;
  Ok (MkGraph m net (centroid_ids db) true).

(** Lines 602-610: the loop stops at the first mode whose graph raises,
    with the graphs of the modes before it stored. *)
Fixpoint for_modes (db : database) (data : table) (modes : list string)
    (graphs : gmap string Graph) : gmap string Graph * result unit :=
  match modes with
  | [] => (graphs, Ok tt)
  | m :: modes =>
      match graph db data m with
      | Ok g => for_modes db data modes (<[m := g]> graphs)
      | Raise e => (graphs, Raise e)
      end
  end.

(** What the call leaves, the fields it queried and how it ended. *)
Record built : Type := Built {
  after : state;
  queried : list string;
  outcome : result unit
}.

(** [df[valid_fields]] of line 601 is a [KeyError] when [modes] is not
    among the fields queried. *)
Definition build_graphs (db : database) (fields : option loc) (modes : modes_arg)
    (st : state) : built :=
  let '(h, all_fields) := all_fields db fields (heap st) in
  let modes := selected db modes in
  let run :=
    match read_sql db all_fields with
    | Ok df =>
        if bool_decide ("modes"%string ∈ all_fields)
        then for_modes db (data df) modes (graphs st)
        else (graphs st, Raise (KeyError "modes"))
    | Raise e => (graphs st, Raise e)
    end in
  Built (State h run.1) all_fields run.2.
End BuildGraphs.

(** A table of three links and the graph of the mode "c": the second
    link, which cars may not use, loses its [b_node]. *)
Definition example_link (id a b : Z) (modes name : string) : link :=
  Link modes
    (list_to_map [("link_id"%string, Gmns.VInt id); ("a_node"%string, Gmns.VInt a);
                  ("b_node"%string, Gmns.VInt b); ("name"%string, Gmns.VStr name)]).

Definition example_table : table :=
  Table ["link_id"; "a_node"; "b_node"]%string
    [example_link 1 1 2 "cw" "Main"; example_link 2 2 3 "w" "Path";
     example_link 3 3 1 "c" "Ring"].

Definition example_db : database :=
  Database ["ogc_fid"; "link_id"; "a_node"; "b_node"; "modes"; "name"; "geometry"]%string
    (fun _ => Ok example_table)
    ["c"; "w"]%string [1%Z].

Definition example_state : state := State {[ 7 := ["distance"]%string ]} ∅.

(** A graph constructor that takes any network, and one that refuses an
    empty list of centroids. *)
Definition prepared (m : string) (net : table) (centroids : list Z) : result unit := Ok tt.

Definition needs_centroids (m : string) (net : table) (centroids : list Z) : result unit :=
  match centroids with
  | [] => Raise (ValueError "no centroid")
  | _ => Ok tt
  end.


(** ** The graphs of the modes *)



(** What the loop stores and how it ends does not depend on the graphs
    it finds. *)
Lemma for_modes_union contains prepare_graph db data ms :
  exists s r, forall g, for_modes contains prepare_graph db data ms g = (s ∪ g, r).
Proof.
  induction ms as [|x ms (s & r & IH)]; simpl.
  - exists ∅, (Ok tt). intros g. now rewrite (left_id_L ∅ (∪)).
  - destruct (graph contains prepare_graph db data x) as [gr|e].
    + exists (s ∪ {[x := gr]}), r. intros g.
      now rewrite IH, insert_union_singleton_l, (assoc_L (∪)).
    + exists ∅, (Raise e). intros g. now rewrite (left_id_L ∅ (∪)).
Qed.





(** ** The caller's list of fields *)

(** [fields.extend] writes into the list object the caller holds. *)
Lemma lookup_heap_build_graphs contains prepare_graph db fields modes st supplied :
  heap st !! fields = Some supplied ->
  heap (after (build_graphs contains prepare_graph db (Some fields) modes st)) !! fields =
  Some (supplied ++ identity_fields).
Proof.
  intros Hs. unfold build_graphs, all_fields. cbn [after heap].
  now rewrite lookup_alter_eq, Hs.
Qed.

(** C10: a call with a list of fields appends the five identity fields
    to that very list object, which is five names longer after the call,
    and leaves the other list objects alone; the fields queried are the
    supplied fields and the identity fields, each once. *)
Theorem build_graphs_extends_fields contains prepare_graph db fields modes st supplied :
  heap st !! fields = Some supplied ->
  let out := build_graphs contains prepare_graph db (Some fields) modes st in
  heap (after out) !! fields = Some (supplied ++ identity_fields) /\
  length (supplied ++ identity_fields) = length supplied + 5 /\
  (forall other, other <> fields -> heap (after out) !! other = heap st !! other) /\
  NoDup (queried out) /\
  (forall f, f ∈ queried out <-> f ∈ supplied \/ f ∈ identity_fields).
Proof.
  intros Hs. unfold build_graphs, all_fields. simpl.
  rewrite lookup_alter_eq, Hs. simpl.
  split; [reflexivity|]. split; [now rewrite length_app|].
  split; [|split].
  - intros other Hne. now apply lookup_alter_ne.
  - apply NoDup_elements.
  - intros f. rewrite elem_of_elements, elem_of_list_to_set, elem_of_app. reflexivity.
Qed.

Lemma build_graphs_extends_fields_witness :
  let st := State {[ 7 := ["distance"; "modes"]%string ]} ∅ in
  let db := Database ["link_id"; "geometry"]%string (fun _ => Ok (Table [] []))
              ["c"]%string [] in
  let out := build_graphs (fun _ _ => true) prepared db (Some 7) ModesNone st in
  heap (after out) !! 7 =
    Some ["distance"; "modes"; "link_id"; "a_node"; "b_node"; "direction"; "modes"]%string.
Proof.
  exact (proj1 (build_graphs_extends_fields (fun _ _ => true) prepared
                  (Database ["link_id"; "geometry"]%string (fun _ => Ok (Table [] []))
                     ["c"]%string [])
                  7 ModesNone (State {[ 7 := ["distance"; "modes"]%string ]} ∅)
                  ["distance"; "modes"]%string eq_refl)).
Defined.

(** X3: the same list object handed to two calls is extended twice. *)
Theorem build_graphs_twice contains prepare_graph db fields modes st supplied :
  heap st !! fields = Some supplied ->
  let once := after (build_graphs contains prepare_graph db (Some fields) modes st) in
  let twice := after (build_graphs contains prepare_graph db (Some fields) modes once) in
  heap twice !! fields = Some (supplied ++ identity_fields ++ identity_fields).
Proof.
  intros Hs once twice.
  pose proof (lookup_heap_build_graphs contains prepare_graph db fields modes st supplied Hs)
    as H1.
  fold once in H1.
  pose proof (lookup_heap_build_graphs contains prepare_graph db fields modes once _ H1)
    as H2.
  fold twice in H2. now rewrite H2, <- app_assoc.
Qed.

Example build_graphs_example :
  let out := build_graphs Gmns.str_contains needs_centroids example_db None (ModesStr "c")
               (State ∅ ∅) in
  queried out = ["link_id"; "a_node"; "b_node"; "modes"; "name"]%string /\
  outcome out = Ok tt /\
  (fun g => (fun r => (Graphs.modes r, cells r !! "a_node"%string, cells r !! "b_node"%string,
                       cells r !! "name"%string))
            <$> links (network g)) <$> graphs (after out) !! "c"%string =
    Some [("cw"%string, Some (Gmns.VInt 1), Some (Gmns.VInt 2), None);
          ("w"%string, Some (Gmns.VInt 2), Some (Gmns.VInt 2), None);
          ("c"%string, Some (Gmns.VInt 3), Some (Gmns.VInt 1), None)] /\
  graphs (after out) !! "w"%string = None.
Proof. repeat split; vm_compute; reflexivity. Qed.

(** Without a centroid the constructor [needs_centroids] raises for the
    first mode, and no graph is stored. *)
Example build_graphs_no_centroid :
  let db := Database (table_info example_db) (read_sql example_db) (mode_ids example_db) [] in
  let out := build_graphs Gmns.str_contains needs_centroids db None ModesNone (State ∅ ∅) in
  outcome out = Raise (ValueError "no centroid") /\ graphs (after out) = ∅.
Proof. split; reflexivity. Qed.

Lemma build_graphs_twice_witness :
  heap (after (build_graphs Gmns.str_contains prepared example_db (Some 7) ModesNone
          (after (build_graphs Gmns.str_contains prepared example_db (Some 7) ModesNone
                    example_state)))) !! 7 =
  Some (["distance"%string] ++ identity_fields ++ identity_fields).
Proof.
  exact (build_graphs_twice Gmns.str_contains prepared example_db 7 ModesNone example_state
           ["distance"%string] eq_refl).
Defined.

(** ** Calls in a row *)

(** X20: without a list of fields a second call with the same arguments, on
    the same tables, changes nothing: the fields queried and the graphs
    are those of the first call. *)
Theorem build_graphs_again contains prepare_graph db modes st :
  let once := build_graphs contains prepare_graph db None modes st in
  build_graphs contains prepare_graph db None modes (after once) = once.
Proof.
  unfold build_graphs, all_fields. cbn [after heap graphs].
  destruct (read_sql db _) as [df|e]; [|reflexivity].
  case_bool_decide; [|reflexivity].
  destruct (for_modes_union contains prepare_graph db (data df) (selected db modes))
    as (s & r & Hs).
  rewrite !Hs. cbn [fst snd].
  now rewrite (assoc_L (∪)), (idemp_L (∪)).
Qed.

End Graphs.

(** * The modes column of [create_from_gmns] (lines 428-447) *)

Module GmnsUsers.
Import Gmns.

(** The settings of one user class in
    [parameters["network"]["gmns"]["modes"]["gmns_users"]]: the code
    reads [i[k][0]["description"]] and [i[k][1]["letters"]]. *)
Record user : Type := User { description : string; letters : string }.

(** One entry of [gmns_users]: a dictionary from the names of user
    classes to their settings, its keys in their order. *)
Definition users : Type := list (string * user).

(** What the look-ups of the loop can raise. *)
Inductive lookup_error : Type :=
| KeyError (key : string)
| IndexError.

Definition keys (x : users) : list string := x.*1.

(** [[k for i in gmns_modes for k in i.keys()]]. *)
Definition gmns_modes_list (gmns_modes : list users) : list string :=
  flat_map keys gmns_modes.

(** [mode in x], for a cell [mode] of the table. *)
Definition has_key (mode : pyval) (x : users) : bool := py_in mode (VStr <$> keys x).

(** [x[k]]. *)
Definition getitem (x : users) (k : string) : lookup_error + user :=
  match List.find (fun p => bool_decide (p.1 = k)) x with
  | Some p => inr p.2
  | None => inl (KeyError k)
  end.

(** Line 438: [[x for x in gmns_modes if mode in x][0]['auto'][1]["letters"]]. *)
Definition letters_of (gmns_modes : list users) (mode : pyval) : lookup_error + string :=
  match List.filter (has_key mode) gmns_modes with
  | [] => inl IndexError
  | x :: _ =>
      match getitem x "auto" with
      | inl e => inl e
      | inr u => inr (letters u)
      end
  end.

(** Line 444: the description of the first user class, over all entries
    and their keys, whose letters are [letter]. *)
Definition mode_name (gmns_modes : list users) (letter : string) : lookup_error + string :=
  match List.filter (fun p : string * user => bool_decide (letters p.2 = letter))
          (concat gmns_modes) with
  | [] => inl IndexError
  | p :: _ => inr (description p.2)
  end.

Section ModesColumn.
(** The modes of the model: [self.list_modes()] lists their ids, and
    [modes.new(letter)], [modes.add(new_mode)] and [new_mode.save()]
    add one with a name. *)
Variable Modes : Type.
Variable list_modes : Modes -> list string.
Variable add_mode : string -> string -> Modes -> Modes.

(** Lines 440-447: the loop over the letters of one row. *)
Fixpoint add_letters (gmns_modes : list users) (rest : list ascii) (modes : Modes)
  : lookup_error + Modes :=
  match rest with
  | [] => inr modes
  | c :: rest' =>
      let letter := char c in
      if bool_decide (letter ∈ list_modes modes) then add_letters gmns_modes rest' modes
      else
        match mode_name gmns_modes letter with
        | inl e => inl e
        | inr name => add_letters gmns_modes rest' (add_mode letter name modes)
        end
  end.

(** Lines 436-447 for one row: its mode string and the modes of the
    model after it. *)
Definition row_modes (gmns_modes : list users) (field : string) (r : row) (modes : Modes)
  : lookup_error + (string * Modes) :=
  if py_in (get r field) (VStr <$> gmns_modes_list gmns_modes) then
    let mode := get r field in
    match letters_of gmns_modes mode with
    | inl e => inl e
    | inr ls =>
        match add_letters gmns_modes (list_ascii_of_string ls) modes with
        | inl e => inl e
        | inr modes' => inr (ls, modes')
        end
    end
  else inr (""%string, modes).

(** Lines 435-447. *)
Fixpoint modes_from_users (gmns_modes : list users) (field : string) (l : list row)
    (modes : Modes) : lookup_error + (list string * Modes) :=
  match l with
  | [] => inr ([], modes)
  | r :: rest =>
      match row_modes gmns_modes field r modes with
      | inl e => inl e
      | inr (ls, modes') =>
          match modes_from_users gmns_modes field rest modes' with
          | inl e => inl e
          | inr (lss, modes'') => inr (ls :: lss, modes'')
          end
      end
  end.
End ModesColumn.

Arguments add_letters {Modes}.
Arguments row_modes {Modes}.
Arguments modes_from_users {Modes}.

(** ** The letters of a user class *)

Lemma has_key_elem mode x :
  has_key mode x = true <-> exists k, mode = VStr k /\ k ∈ keys x.
Proof.
  unfold has_key, py_in. rewrite existsb_exists. split.
  - intros (v & Hin & Heq). apply list_elem_of_In, list_elem_of_fmap in Hin.
    destruct Hin as (k & -> & Hk). exists k. split; [|assumption].
    destruct mode; try discriminate. unfold py_eq in Heq; simpl in Heq.
    apply bool_decide_eq_true in Heq. now subst.
  - intros (k & -> & Hk). exists (VStr k). split.
    + apply list_elem_of_In, list_elem_of_fmap. eauto.
    + unfold py_eq; simpl. now apply bool_decide_eq_true.
Qed.

Lemma recognised_filter gmns_modes mode :
  py_in mode (VStr <$> gmns_modes_list gmns_modes) = true ->
  exists x rest, List.filter (has_key mode) gmns_modes = x :: rest.
Proof.
  unfold py_in. rewrite existsb_exists. intros (v & Hin & Heq).
  apply list_elem_of_In, list_elem_of_fmap in Hin. destruct Hin as (k & -> & Hk).
  unfold gmns_modes_list in Hk. apply list_elem_of_In, in_flat_map in Hk.
  destruct Hk as (x & Hx & Hk).
  assert (Hf : In x (List.filter (has_key mode) gmns_modes)).
  { apply filter_In. split; [assumption|]. apply has_key_elem. exists k.
    split; [|now apply list_elem_of_In].
    destruct mode; try discriminate. unfold py_eq in Heq; simpl in Heq.
    apply bool_decide_eq_true in Heq. now subst. }
  destruct (List.filter (has_key mode) gmns_modes) as [|y rest]; [destruct Hf | eauto].
Qed.

Lemma getitem_inr x k u : getitem x k = inr u -> (k, u) ∈ x.
Proof.
  unfold getitem. destruct (List.find _ x) as [[k' u']|] eqn:E; [|discriminate].
  intros H. injection H as <-. apply find_some in E. destruct E as [Hin Hk].
  apply bool_decide_eq_true in Hk. simpl in Hk. subst. now apply list_elem_of_In.
Qed.

Lemma getitem_missing x k : k ∉ keys x -> getitem x k = inl (KeyError k).
Proof.
  intros Hk. unfold getitem. destruct (List.find _ x) as [[k' u']|] eqn:E; [|reflexivity].
  apply find_some in E. destruct E as [Hin Hk'].
  apply bool_decide_eq_true in Hk'. simpl in Hk'. subst.
  exfalso. apply Hk. unfold keys. apply list_elem_of_fmap. exists (k, u').
  split; [reflexivity | now apply list_elem_of_In].
Qed.

Lemma letters_of_key_error gmns_modes mode :
  py_in mode (VStr <$> gmns_modes_list gmns_modes) = true ->
  (forall x, x ∈ gmns_modes -> has_key mode x = true -> "auto"%string ∉ keys x) ->
  letters_of gmns_modes mode = inl (KeyError "auto").
Proof.
  intros Hrec Hno. destruct (recognised_filter _ _ Hrec) as (x & rest & E).
  assert (Hx : In x (List.filter (has_key mode) gmns_modes)) by (rewrite E; now left).
  apply filter_In in Hx. destruct Hx as [Hx Hk]. apply list_elem_of_In in Hx.
  unfold letters_of. rewrite E. now rewrite getitem_missing by auto.
Qed.

(** X21: the letters of a row never depend on the user class it names: they
    are the letters of the class [auto] of the first entry that has the
    row's class, and when that entry has no class [auto] the look-up
    raises [KeyError]. A recognised class never raises [IndexError]. *)
Theorem letters_of_auto gmns_modes mode :
  py_in mode (VStr <$> gmns_modes_list gmns_modes) = true ->
  letters_of gmns_modes mode <> inl IndexError /\
  (forall ls, letters_of gmns_modes mode = inr ls ->
     exists x u, x ∈ gmns_modes /\ has_key mode x = true /\
       ("auto"%string, u) ∈ x /\ ls = letters u) /\
  ((forall x, x ∈ gmns_modes -> has_key mode x = true -> "auto"%string ∉ keys x) ->
   letters_of gmns_modes mode = inl (KeyError "auto")).
Proof.
  intros Hrec. destruct (recognised_filter _ _ Hrec) as (x & rest & E).
  assert (Hx : In x (List.filter (has_key mode) gmns_modes)) by (rewrite E; now left).
  apply filter_In in Hx. destruct Hx as [Hx Hk]. apply list_elem_of_In in Hx.
  unfold letters_of. rewrite E. split; [|split].
  - unfold getitem. destruct (List.find _ x); discriminate.
  - intros ls. destruct (getitem x "auto") as [e|u] eqn:Eg; [discriminate|].
    intros H. injection H as <-. apply getitem_inr in Eg.
    exists x, u. repeat split; assumption.
  - intros Hno. now rewrite getitem_missing by auto.
Qed.

Lemma letters_of_auto_witness :
  letters_of [[("auto", User "car" "c")]; [("bike", User "bicycle" "b")]]%string (VStr "bike")
    <> inl IndexError /\
  letters_of [[("auto", User "car" "c")]; [("bike", User "bicycle" "b")]]%string (VStr "bike")
    = inl (KeyError "auto").
Proof.
  destruct (letters_of_auto
              [[("auto", User "car" "c")]; [("bike", User "bicycle" "b")]]%string
              (VStr "bike") eq_refl) as (H1 & _ & H3).
  split; [exact H1|]. apply H3.
  intros x Hx Hk Hauto.
  apply elem_of_cons in Hx. destruct Hx as [->|Hx]; [discriminate|].
  apply list_elem_of_singleton in Hx. subst x.
  apply list_elem_of_singleton in Hauto. discriminate.
Defined.

(** ** The rows of the table *)

(** X22: a modes column none of whose values is the name of a configured
    user class leaves every link with the empty mode string and adds no
    mode to the model; nothing is raised. *)
Theorem modes_from_users_unrecognised {M} (list_modes : M -> list string) add_mode
    gmns_modes field l modes :
  (forall r, r ∈ l ->
     py_in (get r field) (VStr <$> gmns_modes_list gmns_modes) = false) ->
  modes_from_users list_modes add_mode gmns_modes field l modes =
  inr ((fun _ => ""%string) <$> l, modes).
Proof.
  induction l as [|r l IH]; intros H; [reflexivity|].
  cbn [modes_from_users]. unfold row_modes. rewrite (H r) by left.
  rewrite IH; [reflexivity|]. intros r0 Hr0. apply H. now right.
Qed.

Lemma modes_from_users_unrecognised_witness :
  modes_from_users (fun m : list string => m) (fun l _ m => m ++ [l])
    [[("auto", User "car" "c")]]%string "allowed_uses"
    [Row 1 1 2 {[ "allowed_uses"%string := VStr "truck" ]}] [] =
  inr ([""%string], []).
Proof.
  apply (modes_from_users_unrecognised (fun m : list string => m) (fun l _ m => m ++ [l])).
  intros r Hr. apply list_elem_of_singleton in Hr. now subst r.
Defined.

(** X23: a table with a row whose user class is recognised but stored in
    entries without a class [auto] cannot be imported: the loop raises,
    and it raises [KeyError('auto')] when no row before that one names a
    recognised class. *)
Theorem modes_from_users_needs_auto {M} (list_modes : M -> list string) add_mode
    gmns_modes field before r rest modes :
  py_in (get r field) (VStr <$> gmns_modes_list gmns_modes) = true ->
  (forall x, x ∈ gmns_modes -> has_key (get r field) x = true ->
     "auto"%string ∉ keys x) ->
  exists e,
    modes_from_users list_modes add_mode gmns_modes field (before ++ r :: rest) modes =
    inl e /\
    ((forall r0, r0 ∈ before ->
        py_in (get r0 field) (VStr <$> gmns_modes_list gmns_modes) = false) ->
     e = KeyError "auto").
Proof.
  intros Hrec Hno.
  assert (Hr : forall m : M, row_modes list_modes add_mode gmns_modes field r m =
                             inl (KeyError "auto")).
  { intros m. unfold row_modes. rewrite Hrec.
    now rewrite (letters_of_key_error gmns_modes (get r field) Hrec Hno). }
  revert modes. induction before as [|r0 before IH]; intros modes; cbn [app modes_from_users].
  - rewrite Hr. eauto.
  - destruct (row_modes list_modes add_mode gmns_modes field r0 modes)
      as [e|[ls modes']] eqn:E0.
    + exists e. split; [reflexivity|]. intros Hun.
      unfold row_modes in E0. rewrite (Hun r0) in E0 by left. discriminate.
    + destruct (IH modes') as (e & -> & He). exists e. split; [reflexivity|].
      intros Hun. apply He. intros r1 Hr1. apply Hun. now right.
Qed.

Lemma modes_from_users_needs_auto_witness :
  exists e,
    modes_from_users (fun m : list string => m) (fun l _ m => m ++ [l])
      [[("auto", User "car" "c")]; [("bike", User "bicycle" "b")]]%string "allowed_uses"
      ([] ++ Row 1 1 2 {[ "allowed_uses"%string := VStr "bike" ]} :: []) [] = inl e /\
    e = KeyError "auto".
Proof.
  destruct (modes_from_users_needs_auto (fun m : list string => m) (fun l _ m => m ++ [l])
              [[("auto", User "car" "c")]; [("bike", User "bicycle" "b")]]%string
              "allowed_uses" [] (Row 1 1 2 {[ "allowed_uses"%string := VStr "bike" ]})
              [] []) as (e & H1 & H2).
  - reflexivity.
  - intros x Hx Hk Hauto.
    apply elem_of_cons in Hx. destruct Hx as [->|Hx]; [discriminate|].
    apply list_elem_of_singleton in Hx. subst x.
    apply list_elem_of_singleton in Hauto. discriminate.
  - exists e. split; [exact H1|]. apply H2. intros r0 Hr0. now apply elem_of_nil in Hr0.
Defined.
End GmnsUsers.

(** * [skimmable_fields] *)

Module Skim.
Import Gmns.

(** A row of [PRAGMA table_info(links)]: [f[1]] is the name of the
    column and [f[2]] its declared type. *)
Record field_info : Type := Field { name : string; type : string }.

(** The type names of lines 56-72. *)
Definition skimmable : list string :=
  ["INT"; "INTEGER"; "TINYINT"; "SMALLINT"; "MEDIUMINT"; "BIGINT";
   "UNSIGNED BIG INT"; "INT2"; "INT8"; "REAL"; "DOUBLE"; "DOUBLE PRECISION";
   "FLOAT"; "DECIMAL"; "NUMERIC"]%string.

(** [s.upper()], on strings of ASCII characters. *)
Definition str_upper (s : string) : string :=
  string_of_list_ascii (map upper (list_ascii_of_string s)).

(** [s[-n:]], for [n > 0]: the last [n] characters, or all of [s]. *)
Definition last_chars (n : nat) (s : string) : string :=
  let l := list_ascii_of_string s in
  string_of_list_ascii (drop (length l - n) l).

(** [s[:-n]], for [n > 0]: [s] without its last [n] characters. *)
Definition but_last (n : nat) (s : string) : string :=
  let l := list_ascii_of_string s in
  string_of_list_ascii (take (length l - n) l).

(** Lines 78-81: the loop over [skimmable], left at the first match. *)
Definition is_skimmable (type : string) : bool :=
  existsb (fun i => str_contains i (str_upper type)) skimmable.

Section SkimmableFields.
(** [req_link_flds], the required fields of the links table. *)
Variable req_link_flds : list string.

Definition ignore_fields : list string := ["ogc_fid"; "geometry"]%string ++ req_link_flds.

(** Lines 73-83. *)
Definition all_fields (field_names : list field_info) : list string :=
  flat_map (fun f =>
      if bool_decide (name f ∈ ignore_fields) then []
      else if is_skimmable (type f) then [name f] else []) field_names
  ++ ["distance"%string].

(** Lines 84-90. *)
Definition real_fields (all_fields : list string) : list string :=
  flat_map (fun f =>
      if bool_decide (last_chars 2 f = "ab"%string) then
        if bool_decide ((but_last 2 f ++ "ba")%string ∈ all_fields)
        then [but_last 3 f] else []
      else if negb (bool_decide (last_chars 3 f = "_ba"%string)) then [f]
      else []) all_fields.

Definition skimmable_fields (field_names : list field_info) : list string :=
  real_fields (all_fields field_names).
End SkimmableFields.

(** The type names that decide: each of the others holds one of them. *)
Definition deciding : list string :=
  ["INT"; "REAL"; "DOUBLE"; "FLOAT"; "DECIMAL"; "NUMERIC"]%string.

(** ** Strings *)

Lemma append_assoc (a b c : string) : ((a ++ b) ++ c = a ++ (b ++ c))%string.
Proof. induction a as [|x a IH]; [reflexivity|]. rewrite !append_cons. now rewrite IH. Qed.

Lemma append_nil_l (s : string) : ("" ++ s)%string = s.
Proof. reflexivity. Qed.

Lemma prefix_iff a : forall s, String.prefix a s = true <-> exists post, s = (a ++ post)%string.
Proof.
  induction a as [|c a IH]; intros s.
  - split; [intros _; now exists s | intros _; now destruct s].
  - destruct s as [|d s]; simpl.
    + split; [discriminate | intros [post H]; rewrite append_cons in H; discriminate].
    + destruct (ascii_dec c d) as [->|Hne].
      * rewrite IH. split; intros [post H]; exists post.
        -- now rewrite H, append_cons.
        -- rewrite append_cons in H. now injection H.
      * split; [discriminate|].
        intros [post H]. rewrite append_cons in H. injection H as E _. congruence.
Qed.

Lemma str_contains_iff sub s :
  str_contains sub s = true <-> exists pre post, s = (pre ++ sub ++ post)%string.
Proof.
  induction s as [|c s IH].
  - cbn [str_contains]. destruct (String.prefix sub "") eqn:E.
    + apply prefix_iff in E. destruct E as [post E]. split; [|reflexivity].
      intros _. now exists ""%string, post.
    + split; [discriminate|]. intros (pre & post & H).
      destruct pre; [|rewrite append_cons in H; discriminate]. rewrite append_nil_l in H.
      assert (String.prefix sub "" = true) by (apply prefix_iff; eauto). congruence.
  - cbn [str_contains]. destruct (String.prefix sub (String c s)) eqn:E.
    + apply prefix_iff in E. destruct E as [post E]. split; [|reflexivity].
      intros _. now exists ""%string, post.
    + rewrite IH. split.
      * intros (pre & post & ->). now exists (String c pre), post.
      * intros (pre & post & H). destruct pre as [|d pre].
        -- rewrite append_nil_l in H. assert (String.prefix sub (String c s) = true)
             by (apply prefix_iff; eauto). congruence.
        -- rewrite append_cons in H. injection H as -> ->. eauto.
Qed.

Lemma str_contains_trans a b c :
  str_contains a b = true -> str_contains b c = true -> str_contains a c = true.
Proof.
  rewrite !str_contains_iff. intros (p1 & q1 & ->) (p2 & q2 & ->).
  exists (p2 ++ p1)%string, (q1 ++ q2)%string. now rewrite !append_assoc.
Qed.

(** ** The types that count *)

(** Names that hold one of the names of [l'] add nothing to [l']. *)
Lemma existsb_contains (l l' : list string) s :
  forallb (fun i => existsb (fun j => str_contains j i) l') l = true ->
  forallb (fun j => existsb (fun i => bool_decide (i = j)) l) l' = true ->
  existsb (fun i => str_contains i s) l = existsb (fun j => str_contains j s) l'.
Proof.
  intros Hl Hl'. rewrite forallb_forall in Hl, Hl'.
  apply eq_true_iff_eq. rewrite !existsb_exists. split.
  - intros (i & Hi & Hs). specialize (Hl i Hi). apply existsb_exists in Hl.
    destruct Hl as (j & Hj & Hji). exists j. split; [assumption|].
    now apply (str_contains_trans j i s).
  - intros (j & Hj & Hs). specialize (Hl' j Hj). apply existsb_exists in Hl'.
    destruct Hl' as (i & Hi & E). apply bool_decide_eq_true in E. subst i. eauto.
Qed.

(** X24: a column counts as numeric exactly when its declared type, in upper
    case, holds one of [INT], [REAL], [DOUBLE], [FLOAT], [DECIMAL] and
    [NUMERIC] somewhere: the test is a test for a part of the name, so
    that a column of type [point] counts and one of type [text] does
    not. *)
Theorem is_skimmable_deciding type :
  is_skimmable type = existsb (fun i => str_contains i (str_upper type)) deciding /\
  is_skimmable "point" = true /\ is_skimmable "text" = false.
Proof.
  split; [|split; reflexivity].
  unfold is_skimmable. apply existsb_contains; reflexivity.
Qed.

(** ** Slices *)

Lemma list_ascii_of_string_app (a b : string) :
  list_ascii_of_string (a ++ b) = list_ascii_of_string a ++ list_ascii_of_string b.
Proof. induction a as [|c a IH]; [reflexivity|]. rewrite append_cons. cbn. now rewrite IH. Qed.

Lemma last_chars_app n x sfx :
  n = length (list_ascii_of_string sfx) -> last_chars n (x ++ sfx) = sfx.
Proof.
  intros ->. unfold last_chars. rewrite list_ascii_of_string_app, length_app.
  replace (length (list_ascii_of_string x) + length (list_ascii_of_string sfx) -
           length (list_ascii_of_string sfx)) with (length (list_ascii_of_string x)) by lia.
  rewrite drop_app_length. apply string_of_list_ascii_of_string.
Qed.

Lemma but_last_app n x sfx :
  n = length (list_ascii_of_string sfx) -> but_last n (x ++ sfx) = x.
Proof.
  intros ->. unfold but_last. rewrite list_ascii_of_string_app, length_app.
  replace (length (list_ascii_of_string x) + length (list_ascii_of_string sfx) -
           length (list_ascii_of_string sfx)) with (length (list_ascii_of_string x)) by lia.
  rewrite take_app_length. apply string_of_list_ascii_of_string.
Qed.

Lemma elem_of_all_fields req fns f :
  f ∈ fns -> name f ∉ ignore_fields req -> is_skimmable (type f) = true ->
  name f ∈ all_fields req fns.
Proof.
  intros Hin Hig Hsk. unfold all_fields. apply elem_of_app. left.
  apply list_elem_of_In, in_flat_map. exists f. split; [now apply list_elem_of_In|].
  rewrite bool_decide_eq_false_2 by assumption. rewrite Hsk. now left.
Qed.

(** ** The fields returned *)

(** X25: the list returned always ends with ["distance"], whatever the links
    table holds; it is just ["distance"] when the table has no numeric
    column besides the required ones. *)
Theorem skimmable_fields_distance req fns :
  (exists pre, skimmable_fields req fns = pre ++ ["distance"%string]) /\
  ((forall f, f ∈ fns -> name f ∈ ignore_fields req \/ is_skimmable (type f) = false) ->
   skimmable_fields req fns = ["distance"%string]).
Proof.
  split.
  - assert (L : forall (g : string -> list string) l,
                g "distance"%string = ["distance"%string] ->
                flat_map g (l ++ ["distance"%string]) = flat_map g l ++ ["distance"%string]).
    { intros g l Hg. rewrite flat_map_app. cbn [flat_map]. now rewrite Hg, app_nil_r. }
    unfold skimmable_fields, real_fields. eexists. apply L. reflexivity.
  - intros Hall. unfold skimmable_fields.
    assert (E : all_fields req fns = ["distance"%string]).
    { unfold all_fields. induction fns as [|f fns IH]; [reflexivity|]. cbn [flat_map].
      destruct (Hall f ltac:(left)) as [H|H].
      - rewrite bool_decide_eq_true_2 by assumption. apply IH.
        intros g Hg. apply Hall. now right.
      - rewrite H. destruct (bool_decide _); apply IH; intros g Hg; apply Hall; now right. }
    rewrite E. reflexivity.
Qed.

(** X26: two numeric columns whose names are a stem, one more character and
    [ab] and [ba] are returned as the stem: the character is cut off
    whatever it is. When it is not [_] the [ba] column is returned under
    its own name as well. *)
Theorem skimmable_fields_pair req fns x c ty1 ty2 :
  Field (x ++ String c "ab") ty1 ∈ fns -> Field (x ++ String c "ba") ty2 ∈ fns ->
  is_skimmable ty1 = true -> is_skimmable ty2 = true ->
  (x ++ String c "ab")%string ∉ ignore_fields req ->
  (x ++ String c "ba")%string ∉ ignore_fields req ->
  x ∈ skimmable_fields req fns /\
  (c <> "_"%char -> (x ++ String c "ba")%string ∈ skimmable_fields req fns).
Proof.
  intros H1 H2 S1 S2 I1 I2.
  pose proof (elem_of_all_fields req fns _ H1 I1 S1) as A1.
  pose proof (elem_of_all_fields req fns _ H2 I2 S2) as A2.
  cbn [name] in A1, A2.
  assert (Eab : (x ++ String c "ab")%string = ((x ++ String c "") ++ "ab")%string)
    by now rewrite append_assoc.
  assert (Eba : (x ++ String c "ba")%string = ((x ++ String c "") ++ "ba")%string)
    by now rewrite append_assoc.
  unfold skimmable_fields, real_fields. split.
  - apply list_elem_of_In, in_flat_map. exists (x ++ String c "ab")%string.
    split; [now apply list_elem_of_In|].
    rewrite bool_decide_eq_true_2 by (rewrite Eab; now apply last_chars_app).
    rewrite bool_decide_eq_true_2.
    + left. now apply but_last_app.
    + rewrite Eab, but_last_app by reflexivity. now rewrite <- Eba.
  - intros Hc. apply list_elem_of_In, in_flat_map. exists (x ++ String c "ba")%string.
    split; [now apply list_elem_of_In|].
    rewrite bool_decide_eq_false_2
      by (rewrite Eba, last_chars_app by reflexivity; discriminate).
    rewrite bool_decide_eq_false_2; [now left|].
    rewrite last_chars_app by reflexivity. intros E. injection E as E. contradiction.
Qed.

Lemma skimmable_fields_pair_witness :
  "speed"%string ∈ skimmable_fields ["link_id"%string]
                     [Field "link_id" "INTEGER"; Field "speed_ab" "REAL";
                      Field "speed_ba" "REAL"].
Proof.
  refine (proj1 (skimmable_fields_pair ["link_id"%string] _ "speed" "_" "REAL" "REAL"
                   _ _ eq_refl eq_refl _ _)).
  - right. left.
  - right. right. left.
  - intros H. repeat (apply elem_of_cons in H; destruct H as [H|H]; [discriminate|]).
    now apply elem_of_nil in H.
  - intros H. repeat (apply elem_of_cons in H; destruct H as [H|H]; [discriminate|]).
    now apply elem_of_nil in H.
Defined.
End Skim.

(** * [set_time_field] *)

Module TimeField.

Section SetTimeField.
(** The graph objects of [aequilibrae.paths.Graph], with what
    [set_time_field] asks of them: the columns of [g.graph], the
    assignment to [g.free_flow_time] and [g.set_graph]. *)
Variable Graph : Type.
Variable columns : Graph -> list string.
Variable set_free_flow_time : string -> Graph -> Graph.
Variable set_graph : string -> Graph -> Graph.

Definition not_available (time_field : string) : exn :=
  ValueError (time_field ++
    " not available. Check if you have NULL values in the database").

(** Lines 622-623 for one graph. *)
Definition with_time_field (time_field : string) (g : Graph) : Graph :=
  set_graph time_field (set_free_flow_time time_field g).

(** Lines 619-624: [self.graphs] is a dictionary, gone through in the
    order its modes were first set; a graph that lacks the field ends
    the loop, and the graphs met before it keep their new time field. *)
Fixpoint set_time_field (time_field : string) (graphs : list (string * Graph))
  : list (string * Graph) * result unit :=
  match graphs with
  | [] => ([], Ok tt)
  | (m, g) :: rest =>
      if bool_decide (time_field ∉ columns g)
      then ((m, g) :: rest, Raise (not_available time_field))
      else
        let '(rest', r) := set_time_field time_field rest in
        ((m, with_time_field time_field g) :: rest', r)
  end.
End SetTimeField.

Arguments set_time_field {Graph}.
Arguments with_time_field {Graph}.

(** ** All graphs or an error *)

(** X27: the call returns exactly when every graph has the field among its
    columns; every graph then gets it as its free-flow time and is set
    up for it, under the mode it had and in the same order. *)
Theorem set_time_field_all {G} (columns : G -> list string) sfft sg time_field graphs :
  (Forall (fun mg => time_field ∈ columns mg.2) graphs <->
   (set_time_field columns sfft sg time_field graphs).2 = Ok tt) /\
  (Forall (fun mg => time_field ∈ columns mg.2) graphs ->
   (set_time_field columns sfft sg time_field graphs).1 =
   (fun mg => (mg.1, with_time_field sfft sg time_field mg.2)) <$> graphs).
Proof.
  induction graphs as [|[m g] rest [IH1 IH2]]; cbn [set_time_field].
  - split; [split; [reflexivity | constructor] | reflexivity].
  - destruct (bool_decide (time_field ∉ columns g)) eqn:E.
    + apply bool_decide_eq_true in E. split; [split|].
      * intros H. apply Forall_cons in H. destruct H as [H _]. contradiction.
      * discriminate.
      * intros H. apply Forall_cons in H. destruct H as [H _]. contradiction.
    + apply bool_decide_eq_false in E.
      assert (Hin : time_field ∈ columns g).
      { destruct (decide (time_field ∈ columns g)); [assumption | contradiction]. }
      destruct (set_time_field columns sfft sg time_field rest) as [rest' r].
      cbn [fst snd] in *. split; [split|].
      * intros H. apply Forall_cons in H. now apply IH1.
      * intros H. apply Forall_cons. split; [assumption | now apply IH1].
      * intros H. apply Forall_cons in H. destruct H as [_ H].
        rewrite fmap_cons. now rewrite IH2.
Qed.

(** X28: the call is not all or nothing: when a graph lacks the field the
    call raises, the graphs before the first such graph have been given
    the time field already, and that graph and the ones after it are as
    they were. *)
Theorem set_time_field_partial {G} (columns : G -> list string) sfft sg time_field
    before m g rest :
  Forall (fun mg => time_field ∈ columns mg.2) before -> time_field ∉ columns g ->
  set_time_field columns sfft sg time_field (before ++ (m, g) :: rest) =
  (((fun mg => (mg.1, with_time_field sfft sg time_field mg.2)) <$> before) ++
     (m, g) :: rest,
   Raise (not_available time_field)).
Proof.
  intros Hb Hg. induction Hb as [|[m0 g0] before H0 Hb IH]; cbn [set_time_field app].
  - now rewrite bool_decide_eq_true_2.
  - rewrite bool_decide_eq_false_2 by (intros H; now apply H).
    now rewrite IH.
Qed.

Lemma set_time_field_partial_witness :
  set_time_field (fun g : list string => g) (fun _ g => g) (fun t g => g ++ [t])
    "time" ([("c"%string, ["distance"; "time"]%string)] ++
            [("w"%string, ["distance"%string])])%list =
  ([("c", ["distance"; "time"; "time"]); ("w", ["distance"])]%string,
   Raise (not_available "time")).
Proof.
  apply (set_time_field_partial (fun g : list string => g) (fun _ g => g)
           (fun t g => g ++ [t]) "time" [("c", ["distance"; "time"])]%string
           "w" ["distance"]%string []).
  - repeat constructor.
  - cbn. intros H. apply list_elem_of_singleton in H. discriminate.
Defined.
End TimeField.
